(** * Movie recommender: poster cache and similarity ranking

    A shallow embedding of [recommender.py]: the poster fetcher
    [fetch_poster] with its on-disk cache and fail markers, and the
    ranking function [recommend].

    Python code that touches the disk, the network or the clock is written
    in a state-and-exception monad over an explicit [World]; an uncaught
    Python exception is the outcome [Raise].  What the environment decides
    (which HTTP answer arrives, whether a file can be written) is an oracle
    in [Env].

    Scope of the model.
    - A movie identifier is what an integer catalog column holds: a Python
      [int], or [None] where the value is missing ([PyVal]).
    - Similarity scores are finite numbers, taken as rationals ([Q]); NaN is
      outside the model.
    - The catalog is a data frame: its row index, whose labels are integers
      or strings and need not be the positions 0..n-1, and the two columns
      the code reads, [title] and [movie_id], each possibly absent.
    - The similarity matrix is a sequence of rows: a list of lists, or a
      two-dimensional array.
    - The body of an HTTP answer is any JSON value, or no JSON at all; of a
      JSON value the model keeps what the code looks at.
    - Creating a marker file either happens or raises [OSError].  Writing a
      poster file either completes, or is refused when the file is opened
      (the disk is left as it was), or fails after the file was opened (the
      file is left with the bytes written so far); both failures raise
      [OSError].
    - [load_movies] and [load_similarity] are taken to have succeeded:
      their results are the arguments [movies] and [similarity] of
      [recommend]. *)

From Stdlib Require Import ZArith QArith Lqa List Sorted Lia Ascii String.
From Stdlib Require Import DecimalString DecimalZ DecimalPos.
From stdpp Require Import gmap strings list fin_maps relations sorting.
Close Scope Q_scope.

(** ** Python values, exceptions and outcomes *)

Inductive PyVal : Type :=
| PyNone
| PyInt (z : Z).

#[global] Instance PyVal_eq_dec : EqDecision PyVal.
Proof. solve_decision. Defined.

Inductive Exn : Type :=
| TypeError
| ValueError
| IndexError
| AttributeError
| OSError
| ConnectionError
| Timeout
| HTTPError
| JSONDecodeError.

(** [requests.exceptions.RequestException] and its subclasses. *)
Definition is_RequestException (e : Exn) : bool :=
  match e with
  | ConnectionError | Timeout | HTTPError | JSONDecodeError => true
  | _ => false
  end.

Inductive Result (A : Type) : Type :=
| Ok (a : A)
| Raise (e : Exn).
Arguments Ok {A} a.
Arguments Raise {A} e.

(** ** The world: disk, network log, clock *)

Record Request : Type := { req_url : string; req_timeout : Q }.

(** The body of a response, as far as the code looks at it:
    - not JSON at all;
    - a JSON object whose [poster_path] member is a string, or is missing
      or null ([None]);
    - a JSON object whose [poster_path] member is neither a string nor null
      (a number, a boolean, an array, an object), with its truth value;
    - a JSON value that is not an object and is false in Python ([null],
      [false], [0], the empty string, the empty array);
    - a JSON value that is not an object and is true in Python. *)
Inductive Json : Type :=
| JsonInvalid
| JsonObject (poster_path : option string)
| JsonObjectOdd (truthy : bool)
| JsonFalsy
| JsonNotObject.

(** The value of [data.get("poster_path")]. *)
Inductive Member : Type :=
| MemberNone
| MemberStr (s : string)
| MemberOdd (truthy : bool).

Record Response : Type :=
  { status_code : Z; body_json : Json; content : string }.

Inductive NetError : Type := NetUnreachable | NetTimedOut.

Inductive HttpOutcome : Type :=
| NetFail (e : NetError)
| Answer (r : Response).

Record Env : Type := {
  BASE_DIR : string;
  TMDB_API_KEY : option string;
  (** the remote provider: its answer to a request, given the requests
      made before it *)
  provider : list Request → Request → HttpOutcome;
  (** whether the disk accepts creating the file at a path and writing it
      in full *)
  writable : string → bool;
  (** where it does not: how many bytes of a poster file are written
      before the write fails, or [None] if the file is not even created *)
  partial_write : string → option nat;
}.

Record World : Type := {
  files : gmap string string;
  http_log : list Request;
  slept : nat;
}.

Definition with_files (f : gmap string string) (w : World) : World :=
  {| files := f; http_log := http_log w; slept := slept w |}.

(** ** The monad of Python code *)

Definition M (A : Type) : Type := World → Result A * World.

#[global] Instance M_ret : MRet M := λ A a w, (Ok a, w).
#[global] Instance M_bind : MBind M := λ A B f m w,
  match m w with
  | (Ok a, w') => f a w'
  | (Raise e, w') => (Raise e, w')
  end.

Definition raise {A} (e : Exn) : M A := λ w, (Raise e, w).

(** [try: m except <handled>: h]: exceptions the handler does not name
    propagate. *)
Definition try_except {A} (m : M A) (handled : Exn → bool) (h : M A) : M A :=
  λ w, match m w with
       | (Ok a, w') => (Ok a, w')
       | (Raise e, w') => if handled e then h w' else (Raise e, w')
       end.

(** ** Library calls *)

Definition starts_with_slash (s : string) : bool :=
  match s with
  | String c _ => if decide (c = "/"%char) then true else false
  | EmptyString => false
  end.

Fixpoint ends_with_slash (s : string) : bool :=
  match s with
  | EmptyString => false
  | String c EmptyString => if decide (c = "/"%char) then true else false
  | String _ s' => ends_with_slash s'
  end.

(** [os.path.join(a, b)] on POSIX. *)
Definition os_path_join (a b : string) : string :=
  if starts_with_slash b then b
  else match a with
       | EmptyString => b
       | _ => if ends_with_slash a then a +:+ b else a +:+ "/" +:+ b
       end.

Definition os_path_exists (path : string) : M bool :=
  λ w, (Ok (bool_decide (is_Some (files w !! path))), w).

(** [open(path, "a").close()]: creates an empty file unless one is there. *)
Definition open_append_close (env : Env) (path : string) : M unit :=
  λ w, if writable env path
       then (Ok (), match files w !! path with
                    | Some _ => w
                    | None => with_files (<[path := ""]> (files w)) w
                    end)
       else (Raise OSError, w).

(** [with open(path, "wb") as f: f.write(data)]: the file is created (or
    emptied) when it is opened, and then written. *)
Definition open_write (env : Env) (path data : string) : M unit :=
  λ w, if writable env path
       then (Ok (), with_files (<[path := data]> (files w)) w)
       else match partial_write env path with
            | None => (Raise OSError, w)
            | Some n =>
                (Raise OSError,
                 with_files (<[path := String.substring 0 n data]> (files w)) w)
            end.

Definition net_exn (e : NetError) : Exn :=
  match e with NetUnreachable => ConnectionError | NetTimedOut => Timeout end.

(** [requests.get(url, timeout=timeout)]. *)
Definition requests_get (env : Env) (url : string) (timeout : Q) : M Response :=
  λ w, let rq := {| req_url := url; req_timeout := timeout |} in
       let w' := {| files := files w; http_log := http_log w ++ [rq];
                    slept := slept w |} in
       match provider env (http_log w) rq with
       | NetFail e => (Raise (net_exn e), w')
       | Answer r => (Ok r, w')
       end.

(** [resp.raise_for_status()]. *)
Definition raise_for_status (r : Response) : M unit :=
  if ((400 <=? status_code r) && (status_code r <? 600))%Z
  then raise HTTPError else mret ().

(** [resp.json()]: a body that is not JSON raises. *)
Definition resp_json (r : Response) : M Json :=
  match body_json r with
  | JsonInvalid => raise JSONDecodeError
  | j => mret j
  end.

(** [v or {}]: a false value is replaced by the empty dict. *)
Definition or_empty_dict (v : Json) : Json :=
  match v with
  | JsonFalsy => JsonObject None
  | _ => v
  end.

(** [data.get("poster_path")]: only a dict has [get]. *)
Definition dict_get_poster_path (data : Json) : M Member :=
  match data with
  | JsonObject None => mret MemberNone
  | JsonObject (Some s) => mret (MemberStr s)
  | JsonObjectOdd t => mret (MemberOdd t)
  | _ => raise AttributeError
  end.

(** [not v]. *)
Definition py_not (v : Member) : bool :=
  match v with
  | MemberNone | MemberStr EmptyString | MemberOdd false => true
  | _ => false
  end.

Definition time_sleep (seconds : nat) : M unit :=
  λ w, (Ok (), {| files := files w; http_log := http_log w;
                  slept := slept w + seconds |}).

(** [s.lstrip("/")]. *)
Fixpoint lstrip_slash (s : string) : string :=
  match s with
  | String c s' => if decide (c = "/"%char) then lstrip_slash s' else s
  | EmptyString => EmptyString
  end.

(** [v.lstrip("/")]: only a string has [lstrip]. *)
Definition member_lstrip (v : Member) : M string :=
  match v with
  | MemberStr s => mret (lstrip_slash s)
  | _ => raise AttributeError
  end.

(** [int(v)]. *)
Definition py_int (v : PyVal) : Result Z :=
  match v with
  | PyInt z => Ok z
  | PyNone => Raise TypeError
  end.

(** [f"{v}"]. *)
Definition py_format (v : PyVal) : string :=
  match v with
  | PyInt z => NilZero.string_of_int (Z.to_int z)
  | PyNone => "None"
  end.

(** Truth value of [os.getenv(...)]: [None] and the empty string are false. *)
Definition py_truthy (s : option string) : bool :=
  match s with
  | None | Some EmptyString => false
  | Some _ => true
  end.

(** [range(n)]. *)
Definition py_range (n : Z) : list Z :=
  map Z.of_nat (seq 0 (Z.to_nat n)).

(** ** recommender.py: paths and markers *)

Definition FAIL_MARKER_EXT : string := ".fail".

Definition POSTER_CACHE_DIR (env : Env) : string :=
  os_path_join (BASE_DIR env) "poster_cache".

Definition TMDB_IMAGE_BASE : string := "https://image.tmdb.org/t/p/w500/".

(** [TMDB_MOVIE_URL.format(movie_id=..., api_key=...)]. *)
Definition TMDB_MOVIE_URL (movie_id : PyVal) (api_key : option string) : string :=
  "https://api.themoviedb.org/3/movie/" +:+ py_format movie_id +:+
  "?api_key=" +:+ default "None" api_key +:+ "&language=en-US".

Definition _poster_path (env : Env) (movie_id : PyVal) : string :=
  os_path_join (POSTER_CACHE_DIR env) (py_format movie_id +:+ ".jpg").

Definition _fail_marker_path (env : Env) (movie_id : PyVal) : string :=
  os_path_join (POSTER_CACHE_DIR env) (py_format movie_id +:+ FAIL_MARKER_EXT).

Definition _has_fail_marker (env : Env) (movie_id : PyVal) : M bool :=
  os_path_exists (_fail_marker_path env movie_id).

Definition _write_fail_marker (env : Env) (movie_id : PyVal) : M unit :=
  try_except (open_append_close env (_fail_marker_path env movie_id))
             (λ e, match e with OSError => true | _ => false end)
             (mret ()).

Definition _is_valid_movie_id (movie_id : PyVal) : M bool :=
  try_except (λ w, match py_int movie_id with
                   | Ok mid => (Ok (0 <? mid)%Z, w)
                   | Raise e => (Raise e, w)
                   end)
             (λ e, match e with TypeError | ValueError => true | _ => false end)
             (mret false).

(** ** recommender.py: [fetch_poster] *)

(** The body of the [try] block of one attempt. *)
Definition fetch_attempt (env : Env) (movie_id : PyVal) (timeout : Q)
    (url cache_path : string) : M (option string) :=
  resp ← requests_get env url timeout;
  if (status_code resp =? 404)%Z then
    _write_fail_marker env movie_id;; mret None
  else
    raise_for_status resp;;
    json ← resp_json resp;
    let data := or_empty_dict json in
    poster_path ← dict_get_poster_path data;
    if py_not poster_path then
      _write_fail_marker env movie_id;; mret None
    else
      stripped ← member_lstrip poster_path;
      let full_url := TMDB_IMAGE_BASE +:+ stripped in
      img_resp ← requests_get env full_url timeout;
      if (status_code img_resp =? 404)%Z then
        _write_fail_marker env movie_id;; mret None
      else
        raise_for_status img_resp;;
        open_write env cache_path (content img_resp);;
        mret (Some cache_path).

(** [for attempt in range(retries): try: ... except RequestException: ...]
    followed by the final [return None]. *)
Fixpoint fetch_loop (env : Env) (movie_id : PyVal) (timeout : Q) (retries : Z)
    (url cache_path : string) (attempts : list Z) : M (option string) :=
  match attempts with
  | [] => mret None
  | attempt :: rest =>
      try_except (fetch_attempt env movie_id timeout url cache_path)
                 is_RequestException
                 (if (attempt <? retries - 1)%Z
                  then time_sleep 1;;
                       fetch_loop env movie_id timeout retries url cache_path rest
                  else mret None)
  end.

Definition fetch_poster (env : Env) (movie_id : PyVal) (timeout : Q)
    (retries : Z) : M (option string) :=
  if negb (py_truthy (TMDB_API_KEY env)) then mret None
  else
    valid ← _is_valid_movie_id movie_id;
    if negb valid then
      _write_fail_marker env movie_id;; mret None
    else
      let cache_path := _poster_path env movie_id in
      cached ← os_path_exists cache_path;
      if (cached : bool) then mret (Some cache_path)
      else
        marked ← _has_fail_marker env movie_id;
        if (marked : bool) then mret None
        else
          let url := TMDB_MOVIE_URL movie_id (TMDB_API_KEY env) in
          fetch_loop env movie_id timeout retries url cache_path
                     (py_range retries).

(** Defaults of [fetch_poster]. *)
Definition default_timeout : Q := (10 # 1)%Q.
Definition default_retries : Z := 3.

(** ** The catalog and the similarity matrix *)

(** A label of the row index of a data frame. *)
Inductive Label : Type :=
| LabelInt (z : Z)
| LabelStr (s : string).

(** The data frame returned by [load_movies]: [n_rows] rows, the label that
    the row index gives to the row at each position, and the columns
    [recommend] reads. *)
Record DataFrame : Type := {
  n_rows : nat;
  index : nat → Label;
  title_col : option (list string);
  movie_id_col : option (list PyVal);
}.

(** The default index of a frame: the row at position [i] is labelled
    [i]. *)
Definition RangeIndex : nat → Label := λ i, LabelInt (Z.of_nat i).

(** Every column present has one cell per row. *)
Definition df_wf (df : DataFrame) : Prop :=
  (∀ c, title_col df = Some c → length c = n_rows df) ∧
  (∀ c, movie_id_col df = Some c → length c = n_rows df).

(** A row as [row.get] sees it: a cell, or nothing where the column is
    absent. *)
Record Row : Type := {
  row_title : option string;
  row_movie_id : option PyVal;
}.

(** The cell of a column at a row, if the column is there. *)
Definition title_at (df : DataFrame) (idx : nat) : option string :=
  title_col df ≫= (λ c, c !! idx).

Definition movie_id_at (df : DataFrame) (idx : nat) : option PyVal :=
  movie_id_col df ≫= (λ c, c !! idx).

(** [movies.iloc[idx]] for a non-negative position. *)
Definition iloc (df : DataFrame) (idx : nat) : M Row :=
  if decide (idx < n_rows df)
  then mret {| row_title := title_at df idx;
               row_movie_id := movie_id_at df idx |}
  else raise IndexError.

(** [enumerate(l)], counting from [k]. *)
Fixpoint enumerate_from {A} (k : nat) (l : list A) : list (nat * A) :=
  match l with
  | [] => []
  | x :: l' => (k, x) :: enumerate_from (S k) l'
  end.

Definition py_enumerate {A} (l : list A) : list (nat * A) := enumerate_from 0 l.

(** The positions at which the mask [movies["title"] == movie_title] is
    true. *)
Definition title_mask (titles : list string) (movie_title : string) : list nat :=
  (filter (λ p, p.2 = movie_title) (py_enumerate titles)).*1.

(** [movies.index[movies["title"] == movie_title].tolist()]: the labels of
    the rows that carry the title. *)
Definition title_matches (index : nat → Label) (titles : list string)
    (movie_title : string) : list Label :=
  index <$> title_mask titles movie_title.

(** [seq[key]] for a list, or for an array along its first axis: an integer
    key is a position, counted from the end if negative; a string key is
    refused (with [TypeError] by a list, with [IndexError] by an array:
    [recommend] catches either). *)
Definition py_getitem {A} (l : list A) (key : Label) : Result A :=
  match key with
  | LabelInt i =>
      let pos := if (i <? 0)%Z then (i + Z.of_nat (length l))%Z else i in
      if (pos <? 0)%Z then Raise IndexError
      else match l !! Z.to_nat pos with
           | Some x => Ok x
           | None => Raise IndexError
           end
  | LabelStr _ => Raise TypeError
  end.

(** A computation that touches nothing. *)
Definition pure_result {A} (r : Result A) : M A := λ w, (r, w).

(** [sorted(l, key=key, reverse=True)].  Python's sort is stable, also with
    [reverse=True]: among equal keys the input order is kept.  The result of
    a stable sort is determined by the keys and the input order, so it is
    written here as the insertion sort that puts each element in front of
    the first later element whose key is not greater. *)
Fixpoint insert_desc {A} (key : A → Q) (x : A) (l : list A) : list A :=
  match l with
  | [] => [x]
  | y :: l' =>
      if Qle_bool (key y) (key x) then x :: y :: l'
      else y :: insert_desc key x l'
  end.

Definition py_sorted_desc {A} (key : A → Q) (l : list A) : list A :=
  foldr (insert_desc key) [] l.

(** A slice bound [i] of a sequence of length [len], as Python clamps it. *)
Definition py_slice_bound (len i : Z) : Z :=
  if (i <? 0)%Z then Z.max 0 (i + len) else Z.min i len.

(** [l[start:stop]]. *)
Definition py_slice {A} (start stop : Z) (l : list A) : list A :=
  let len := Z.of_nat (length l) in
  let lo := py_slice_bound len start in
  let hi := py_slice_bound len stop in
  take (Z.to_nat (hi - lo)) (drop (Z.to_nat lo) l).

(** ** recommender.py: [recommend] *)

Definition Recommendation : Type := option string * option string.

(** [scored[1 : top_n + 1]] for the similarity row [distances]. *)
Definition candidates (distances : list Q) (top_n : Z) : list (nat * Q) :=
  let scored := py_sorted_desc snd (py_enumerate distances) in
  py_slice 1 (top_n + 1) scored.

(** [for idx, _score in candidates: ... recs.append((title, poster))]. *)
Fixpoint recommend_loop (env : Env) (movies : DataFrame)
    (cands : list (nat * Q)) (recs : list Recommendation)
    : M (list Recommendation) :=
  match cands with
  | [] => mret recs
  | (idx, _score) :: rest =>
      row ← iloc movies idx;
      let title := row_title row in
      let movie_id := default PyNone (row_movie_id row) in
      poster ← match movie_id with
               | PyNone => mret None
               | _ => fetch_poster env movie_id default_timeout default_retries
               end;
      recommend_loop env movies rest (recs ++ [(title, poster)])
  end.

Definition recommend (env : Env) (movies : DataFrame)
    (similarity : list (list Q)) (movie_title : string) (top_n : Z)
    : M (list Recommendation) :=
  match title_col movies with
  | None => mret []
  | Some titles =>
      match title_matches (index movies) titles movie_title with
      | [] => mret []
      | movie_index :: _ =>
          row ← try_except (d ← pure_result (py_getitem similarity movie_index);
                            mret (Some d))
                           (λ _, true)
                           (mret None);
          match row with
          | None => mret []
          | Some distances =>
              recommend_loop env movies (candidates distances top_n) []
          end
      end
  end.

(** ** Observations used in the statements *)

(** An identifier is valid when it coerces to an integer greater than zero. *)
Definition valid_id (movie_id : PyVal) : Prop :=
  ∃ z, py_int movie_id = Ok z ∧ (0 < z)%Z.

(** The on-disk record of an identifier: the cached poster file and the
    fail marker are the whole persisted state. *)
Inductive AssetRecord : Type :=
| Absent
| Cached (blob : string)
| PermanentlyUnavailable
| Corrupted.

Definition record (env : Env) (w : World) (movie_id : PyVal) : AssetRecord :=
  match files w !! _poster_path env movie_id,
        files w !! _fail_marker_path env movie_id with
  | None, None => Absent
  | Some blob, None => Cached blob
  | None, Some _ => PermanentlyUnavailable
  | Some _, Some _ => Corrupted
  end.

(** The files after a call of [_write_fail_marker]: the marker is created
    if the disk accepts it and it is not there yet. *)
Definition mark_files (env : Env) (movie_id : PyVal)
    (f : gmap string string) : gmap string string :=
  let path := _fail_marker_path env movie_id in
  if writable env path
  then match f !! path with Some _ => f | None => <[path := ""]> f end
  else f.

Definition has_marker (env : Env) (w : World) (movie_id : PyVal) : Prop :=
  is_Some (files w !! _fail_marker_path env movie_id).

(** One call of [fetch_poster], by any caller, on any identifier, against
    the cache directory under [base]. *)
Definition fetch_step (base : string) (w w' : World) : Prop :=
  ∃ env movie_id timeout retries res,
    BASE_DIR env = base ∧
    fetch_poster env movie_id timeout retries w = (res, w').

(** A transient failure of one HTTP request: no answer at all, or an error
    status other than 404. *)
Definition transient (o : HttpOutcome) : Prop :=
  match o with
  | NetFail _ => True
  | Answer r => (400 ≤ status_code r < 600)%Z ∧ status_code r ≠ 404%Z
  end.

(** A provider that has the poster of [movie_id] at the moment the log is
    [log]: the metadata names a locator and the image is served. *)
Definition healthy_for (env : Env) (movie_id : PyVal) (timeout : Q)
    (log : list Request) (data : string) : Prop :=
  ∃ meta img p,
    let rq := {| req_url := TMDB_MOVIE_URL movie_id (TMDB_API_KEY env);
                 req_timeout := timeout |} in
    provider env log rq = Answer meta ∧
    ¬ (400 ≤ status_code meta < 600)%Z ∧
    body_json meta = JsonObject (Some p) ∧ p ≠ "" ∧
    provider env (log ++ [rq])
      {| req_url := TMDB_IMAGE_BASE +:+ lstrip_slash p; req_timeout := timeout |}
      = Answer img ∧
    ¬ (400 ≤ status_code img < 600)%Z ∧
    content img = data.

(** The two requests of an attempt. *)
Definition metadata_request (env : Env) (movie_id : PyVal) (timeout : Q)
    : Request :=
  {| req_url := TMDB_MOVIE_URL movie_id (TMDB_API_KEY env);
     req_timeout := timeout |}.

Definition image_request (poster_path : string) (timeout : Q) : Request :=
  {| req_url := TMDB_IMAGE_BASE +:+ lstrip_slash poster_path;
     req_timeout := timeout |}.

(** One attempt that fails transiently, made when the log is [log]; the
    index is the log after it.  Either the metadata request gets no answer
    or an error status other than 404; or it is answered without an error
    status and the body is not JSON; or the metadata names a locator and
    the image request gets no answer or an error status other than 404. *)
Inductive attempt_fails (env : Env) (movie_id : PyVal) (timeout : Q)
    (log : list Request) : list Request → Prop :=
| fails_at_metadata :
    transient (provider env log (metadata_request env movie_id timeout)) →
    attempt_fails env movie_id timeout log
      (log ++ [metadata_request env movie_id timeout])
| fails_at_body meta :
    provider env log (metadata_request env movie_id timeout) = Answer meta →
    ¬ (400 ≤ status_code meta < 600)%Z →
    body_json meta = JsonInvalid →
    attempt_fails env movie_id timeout log
      (log ++ [metadata_request env movie_id timeout])
| fails_at_image meta p :
    provider env log (metadata_request env movie_id timeout) = Answer meta →
    ¬ (400 ≤ status_code meta < 600)%Z →
    body_json meta = JsonObject (Some p) → p ≠ "" →
    transient (provider env (log ++ [metadata_request env movie_id timeout])
                 (image_request p timeout)) →
    attempt_fails env movie_id timeout log
      (log ++ [metadata_request env movie_id timeout; image_request p timeout]).

(** [n] attempts in a row, each failing transiently, that take the log
    from [log] to [log']. *)
Inductive attempts_fail (env : Env) (movie_id : PyVal) (timeout : Q)
    : nat → list Request → list Request → Prop :=
| attempts_fail_0 log : attempts_fail env movie_id timeout 0 log log
| attempts_fail_S n log log1 log2 :
    attempt_fails env movie_id timeout log log1 →
    attempts_fail env movie_id timeout n log1 log2 →
    attempts_fail env movie_id timeout (S n) log log2.

(** The metadata requests for [movie_id] among some requests. *)
Definition metadata_requests (env : Env) (movie_id : PyVal)
    (requests : list Request) : list Request :=
  filter (λ rq, req_url rq = TMDB_MOVIE_URL movie_id (TMDB_API_KEY env)) requests.

(** A body the code can read: anything but a true value that is not an
    object, and an object whose [poster_path] is true and not a string. *)
Definition readable_body (j : Json) : Prop :=
  match j with
  | JsonNotObject | JsonObjectOdd true => False
  | _ => True
  end.

(** The provider has, for some history, an answer to the request whose body
    the code cannot read. *)
Definition unreadable_answer (env : Env) (url : string) (timeout : Q) : Prop :=
  ∃ log r,
    provider env log {| req_url := url; req_timeout := timeout |} = Answer r ∧
    ¬ readable_body (body_json r).

(** Every answer the provider has to the request carries a body the code
    can read. *)
Definition readable_provider (env : Env) (url : string) (timeout : Q) : Prop :=
  ∀ log r,
    provider env log {| req_url := url; req_timeout := timeout |} = Answer r →
    readable_body (body_json r).

(** The ranking order: a higher score first, and among equal scores the
    smaller column index first. *)
Definition before (a b : nat * Q) : Prop :=
  (b.2 < a.2)%Q ∨ ((a.2 == b.2)%Q ∧ a.1 < b.1).

(** The query's own score tops its row: no other column has a greater
    score, and no earlier column an equal one. *)
Definition self_ranked_first (i : nat) (distances : list Q) : Prop :=
  ∀ d j s, distances !! i = Some d → distances !! j = Some s →
    (j < i → (s < d)%Q) ∧ (i < j → (s <= d)%Q).

(** A returned entry carries the title of the catalog row of a candidate. *)
Definition built_from (movies : DataFrame) (r : Recommendation)
    (c : nat * Q) : Prop :=
  r.1 = title_at movies c.1.

(** [title] resolves to the row at position [i], the first that carries
    the title, and the lookup of that row's label in the matrix gives the
    similarity row [distances]. *)
Definition resolves (movies : DataFrame) (similarity : list (list Q))
    (title : string) (i : nat) (distances : list Q) : Prop :=
  ∃ titles, title_col movies = Some titles ∧
    head (title_mask titles title) = Some i ∧
    py_getitem similarity (index movies i) = Ok distances.

(** [title] resolves to the row at position [i], and the lookup of that
    row's label in the matrix fails. *)
Definition resolves_out_of_bounds (movies : DataFrame)
    (similarity : list (list Q)) (title : string) (i : nat) : Prop :=
  ∃ titles, title_col movies = Some titles ∧
    head (title_mask titles title) = Some i ∧
    ∃ e, py_getitem similarity (index movies i) = Raise e.

(** [title] is not in the catalog, or the catalog has no title column. *)
Definition unknown_title (movies : DataFrame) (title : string) : Prop :=
  match title_col movies with
  | None => True
  | Some titles => title_matches (index movies) titles title = []
  end.

(** ** Claims of the specification that the code does not meet, as stated *)

(** An out-of-bounds query index makes the call fail. *)
Definition out_of_bounds_raises : Prop :=
  ∀ env movies similarity title top_n w i,
    resolves_out_of_bounds movies similarity title i →
    ∃ e w', recommend env movies similarity title top_n w = (Raise e, w').

(** At most [top_n] entries are returned. *)
Definition at_most_top_n : Prop :=
  ∀ env movies similarity title top_n w i distances recs w',
    resolves movies similarity title i distances →
    recommend env movies similarity title top_n w = (Ok recs, w') →
    (Z.of_nat (length recs) ≤ top_n)%Z.

(** No returned entry is built from the query's own row. *)
Definition never_own_row : Prop :=
  ∀ env movies similarity title top_n w i distances recs w',
    resolves movies similarity title i distances →
    recommend env movies similarity title top_n w = (Ok recs, w') →
    Forall2 (built_from movies) recs (candidates distances top_n) ∧
    Forall (λ c, c.1 ≠ i) (candidates distances top_n).

(** An invalid identifier always leaves a fail marker behind. *)
Definition invalid_id_leaves_marker : Prop :=
  ∀ env movie_id timeout retries w,
    py_truthy (TMDB_API_KEY env) = true →
    ¬ valid_id movie_id →
    ∃ w', fetch_poster env movie_id timeout retries w = (Ok None, w') ∧
          has_marker env w' movie_id ∧
          http_log w' = http_log w.

(** Without a credential and with every column of the query's row inside
    the catalog, the number of entries is max(0, min(topN, rowLength - 1)). *)
Definition entry_count_formula : Prop :=
  ∀ env movies similarity title top_n w i distances,
    py_truthy (TMDB_API_KEY env) = false →
    resolves movies similarity title i distances →
    length distances ≤ n_rows movies →
    ∃ recs w', recommend env movies similarity title top_n w = (Ok recs, w') ∧
      Z.of_nat (length recs) =
        Z.max 0 (Z.min top_n (Z.of_nat (length distances) - 1)).

(** ** recommender.py: [load_movies] *)

(** The frame built from the unpickled dict: its labelled columns, in the
    order of the dict.  Reading the pickle is left to the caller: the dict
    is the argument. *)
Definition has_column {C} (name : string) (cols : list (string * C)) : bool :=
  bool_decide (name ∈ cols.*1).

(** [df.rename(columns={old: new})]. *)
Definition rename_column {C} (old new : string) (cols : list (string * C))
    : list (string * C) :=
  map (λ nc, (if decide (nc.1 = old) then new else nc.1, nc.2)) cols.

(** [for alt in alts: if alt in df.columns: df = df.rename(...); break]. *)
Fixpoint rename_first_alt {C} (alts : list string) (cols : list (string * C))
    : list (string * C) :=
  match alts with
  | [] => cols
  | alt :: rest =>
      if has_column alt cols then rename_column alt "movie_id" cols
      else rename_first_alt rest cols
  end.

Definition load_movies {C} (movies_dict : list (string * C))
    : list (string * C) :=
  if negb (has_column "movie_id" movies_dict)
  then rename_first_alt ["id"; "movieId"; "tmdb_id"] movies_dict
  else movies_dict.

(** [df[name]] for a frame with unique labels. *)
Fixpoint column {C} (name : string) (cols : list (string * C)) : option C :=
  match cols with
  | [] => None
  | nc :: rest => if decide (nc.1 = name) then Some nc.2 else column name rest
  end.

(** ** app.py: the sidebar *)

(** [c.lower()] for an ASCII character. *)
Definition ascii_lower (c : ascii) : ascii :=
  let n := nat_of_ascii c in
  if (65 <=? n) && (n <=? 90) then ascii_of_nat (n + 32) else c.

(** [s.lower()], for ASCII text. *)
Fixpoint str_lower (s : string) : string :=
  match s with
  | EmptyString => EmptyString
  | String c s' => String (ascii_lower c) (str_lower s')
  end.

(** [needle in hay]. *)
Fixpoint str_contains (needle hay : string) : bool :=
  String.prefix needle hay ||
  match hay with
  | EmptyString => false
  | String _ hay' => str_contains needle hay'
  end.

(** [movies['title'].values.tolist() if 'title' in movies.columns else []]. *)
Definition all_titles (movies : DataFrame) : list string :=
  default [] (title_col movies).

(** The options of the select box, for the text typed in the search box:
    the titles that contain the text, case-insensitively, or all titles if
    the text is empty or no title contains it. *)
Definition sidebar_options (titles : list string) (query_text : string)
    : list string :=
  match query_text with
  | EmptyString => titles
  | _ =>
      let filtered :=
        filter (λ t, str_contains (str_lower query_text) (str_lower t) = true)
               titles in
      match filtered with
      | [] => titles
      | _ => filtered
      end
  end.

(** ** Further observations *)

(** The provider says, when the log is [log], that [movie_id] has no
    poster: the metadata request is answered 404, or the metadata names no
    locator, or the image request is answered 404.  The index is the number
    of requests this takes. *)
Inductive says_no (env : Env) (movie_id : PyVal) (timeout : Q)
    (log : list Request) : nat → Prop :=
| no_such_movie meta :
    provider env log
      {| req_url := TMDB_MOVIE_URL movie_id (TMDB_API_KEY env);
         req_timeout := timeout |} = Answer meta →
    status_code meta = 404%Z →
    says_no env movie_id timeout log 1
| no_locator meta p :
    provider env log
      {| req_url := TMDB_MOVIE_URL movie_id (TMDB_API_KEY env);
         req_timeout := timeout |} = Answer meta →
    ¬ (400 ≤ status_code meta < 600)%Z →
    body_json meta = JsonObject p →
    p = None ∨ p = Some "" →
    says_no env movie_id timeout log 1
| no_image meta p img :
    provider env log
      {| req_url := TMDB_MOVIE_URL movie_id (TMDB_API_KEY env);
         req_timeout := timeout |} = Answer meta →
    ¬ (400 ≤ status_code meta < 600)%Z →
    body_json meta = JsonObject (Some p) → p ≠ "" →
    provider env
      (log ++ [{| req_url := TMDB_MOVIE_URL movie_id (TMDB_API_KEY env);
                  req_timeout := timeout |}])
      {| req_url := TMDB_IMAGE_BASE +:+ lstrip_slash p; req_timeout := timeout |}
      = Answer img →
    status_code img = 404%Z →
    says_no env movie_id timeout log 2.

(** ** Concrete scenarios *)

Module Demo.

Definition key : string := "k".

Definition ok (j : Json) (data : string) : HttpOutcome :=
  Answer {| status_code := 200; body_json := j; content := data |}.

Definition not_found : HttpOutcome :=
  Answer {| status_code := 404; body_json := JsonInvalid; content := "" |}.

(** A provider that has the poster of movie 1, knows movie 2 without a
    poster, and knows no other movie. *)
Definition tmdb (_ : list Request) (rq : Request) : HttpOutcome :=
  if decide (req_url rq = TMDB_MOVIE_URL (PyInt 1) (Some key)) then
    ok (JsonObject (Some "/one.jpg")) ""
  else if decide (req_url rq = TMDB_IMAGE_BASE +:+ "one.jpg") then
    ok JsonInvalid "JPEG1"
  else if decide (req_url rq = TMDB_MOVIE_URL (PyInt 2) (Some key)) then
    ok (JsonObject None) ""
  else not_found.

(** The same provider behind a network that drops the first three
    requests. *)
Definition flaky (log : list Request) (rq : Request) : HttpOutcome :=
  if decide (length log < 3) then NetFail NetTimedOut else tmdb log rq.

Definition env : Env :=
  {| BASE_DIR := "/app"; TMDB_API_KEY := Some key; provider := tmdb;
     writable := λ _, true; partial_write := λ _, None |}.

Definition env_flaky : Env :=
  {| BASE_DIR := "/app"; TMDB_API_KEY := Some key; provider := flaky;
     writable := λ _, true; partial_write := λ _, None |}.



Definition env_no_key : Env :=
  {| BASE_DIR := "/app"; TMDB_API_KEY := None; provider := tmdb;
     writable := λ _, true; partial_write := λ _, None |}.

(** A cache directory that cannot be written. *)
Definition env_read_only : Env :=
  {| BASE_DIR := "/app"; TMDB_API_KEY := Some key; provider := tmdb;
     writable := λ _, false; partial_write := λ _, None |}.

(** A disk that is full: a poster file is created, and the write fails
    after two bytes. *)
Definition env_full_disk : Env :=
  {| BASE_DIR := "/app"; TMDB_API_KEY := Some key; provider := tmdb;
     writable := λ _, false; partial_write := λ _, Some 2 |}.

(** A provider that answers every request with a JSON array. *)
Definition env_array : Env :=
  {| BASE_DIR := "/app"; TMDB_API_KEY := Some key;
     provider := λ _ _, ok JsonNotObject "";
     writable := λ _, true; partial_write := λ _, None |}.

(** A provider that knows movie 1 and its poster, behind an image server
    that is down. *)
Definition image_down (_ : list Request) (rq : Request) : HttpOutcome :=
  if decide (req_url rq = TMDB_MOVIE_URL (PyInt 1) (Some key)) then
    ok (JsonObject (Some "/one.jpg")) ""
  else Answer {| status_code := 503; body_json := JsonInvalid; content := "" |}.

Definition env_image_down : Env :=
  {| BASE_DIR := "/app"; TMDB_API_KEY := Some key; provider := image_down;
     writable := λ _, true; partial_write := λ _, None |}.

Definition w0 : World := {| files := ∅; http_log := []; slept := 0 |}.

Definition movies : DataFrame :=
  {| n_rows := 3; index := RangeIndex;
     title_col := Some ["Alpha"; "Beta"; "Gamma"];
     movie_id_col := Some [PyInt 1; PyInt 2; PyNone] |}.

Definition similarity : list (list Q) :=
  [ [1; 1 # 2; 1 # 2]; [1 # 2; 1; 1 # 4]; [1 # 2; 1 # 4; 1] ]%Q.

(** A catalog with fewer rows than the matrix has columns. *)
Definition small_catalog : DataFrame :=
  {| n_rows := 2; index := RangeIndex;
     title_col := Some ["Alpha"; "Beta"];
     movie_id_col := Some [PyInt 1; PyInt 2] |}.

(** A catalog without a [movie_id] column. *)
Definition titles_only : DataFrame :=
  {| n_rows := 3; index := RangeIndex;
     title_col := Some ["Alpha"; "Beta"; "Gamma"];
     movie_id_col := None |}.

(** The catalog [movies] after rows were dropped from a larger frame: the
    rows keep the labels 1, 2 and 5 they had there. *)
Definition relabelled : DataFrame :=
  {| n_rows := 3;
     index := λ i, LabelInt (match i with 0 => 1 | 1 => 2 | _ => 5 end);
     title_col := Some ["Alpha"; "Beta"; "Gamma"];
     movie_id_col := Some [PyInt 1; PyInt 2; PyNone] |}.

(** A matrix whose diagonal is not the maximum of its rows. *)
Definition skewed : list (list Q) :=
  [ [1 # 2; 9 # 10; 1 # 10]; [9 # 10; 1; 1 # 4]; [1 # 10; 1 # 4; 1] ]%Q.

(** A matrix with fewer rows than the catalog. *)
Definition short : list (list Q) := [ [1; 1 # 2; 1 # 2] ]%Q.

End Demo.

(** * Properties *)

(** ** Small runs of the model *)

Example demo_path : _poster_path Demo.env (PyInt 1) = "/app/poster_cache/1.jpg".
Proof. reflexivity. Qed.

Example demo_candidates :
  (candidates [1; 1 # 2; 1 # 2]%Q 5).*1 = [1; 2].
Proof. reflexivity. Qed.

Example demo_fetch_hit :
  (fetch_poster Demo.env (PyInt 1) default_timeout default_retries Demo.w0).1
  = Ok (Some "/app/poster_cache/1.jpg").
Proof. vm_compute. reflexivity. Qed.

Example demo_recommend :
  (recommend Demo.env Demo.movies Demo.similarity "Gamma" 5 Demo.w0).1
  = Ok [(Some "Alpha", Some "/app/poster_cache/1.jpg"); (Some "Beta", None)].
Proof. vm_compute. reflexivity. Qed.

Example demo_skewed :
  (recommend Demo.env_no_key Demo.movies Demo.skewed "Alpha" 5 Demo.w0).1
  = Ok [(Some "Alpha", None); (Some "Gamma", None)].
Proof. vm_compute. reflexivity. Qed.

(** Under an index that is not the default one the matrix is read at the
    label: the query "Alpha", labelled 1, is ranked by row 1 of the matrix,
    and its own row comes back; "Gamma", labelled 5, has no row. *)
Example demo_relabelled :
  (recommend Demo.env_no_key Demo.relabelled Demo.similarity "Alpha" 5 Demo.w0).1
  = Ok [(Some "Alpha", None); (Some "Gamma", None)] ∧
  (recommend Demo.env_no_key Demo.relabelled Demo.similarity "Gamma" 5 Demo.w0).1
  = Ok [].
Proof. split; vm_compute; reflexivity. Qed.

(** On a full disk the failed write leaves a truncated poster file, which
    the next call takes for the cached poster. *)
Example demo_full_disk :
  fetch_poster Demo.env_full_disk (PyInt 1) default_timeout default_retries Demo.w0
  = (Raise OSError,
     {| files := {[ "/app/poster_cache/1.jpg" := "JP" ]};
        http_log :=
          [ {| req_url := TMDB_MOVIE_URL (PyInt 1) (Some Demo.key);
               req_timeout := default_timeout |};
            {| req_url := TMDB_IMAGE_BASE +:+ "one.jpg";
               req_timeout := default_timeout |} ];
        slept := 0 |}) ∧
  (fetch_poster Demo.env_full_disk (PyInt 1) default_timeout default_retries
     (fetch_poster Demo.env_full_disk (PyInt 1) default_timeout default_retries
        Demo.w0).2).1
  = Ok (Some "/app/poster_cache/1.jpg").
Proof. split; vm_compute; reflexivity. Qed.

(** A body that is JSON but not an object is not caught by the loop. *)
Example demo_array_body :
  (fetch_poster Demo.env_array (PyInt 1) default_timeout default_retries Demo.w0).1
  = Raise AttributeError.
Proof. vm_compute. reflexivity. Qed.

Example demo_negative_top_n :
  (recommend Demo.env_no_key Demo.movies Demo.similarity "Alpha" (-2) Demo.w0).1
  = Ok [(Some "Beta", None)].
Proof. vm_compute. reflexivity. Qed.

(** ** Paths: one poster file and one marker file per identifier *)

Section paths.

Lemma to_list_app (s t : string) :
  list_ascii_of_string (s +:+ t)
  = list_ascii_of_string s ++ list_ascii_of_string t.
Proof. induction s as [|c s IH]; simpl; [done|]. by rewrite IH. Qed.

Lemma to_list_inj (s t : string) :
  list_ascii_of_string s = list_ascii_of_string t → s = t.
Proof.
  intros H. rewrite <- (string_of_list_ascii_of_string s),
    <- (string_of_list_ascii_of_string t). by rewrite H.
Qed.

Lemma app_inj_tail (s1 s2 t : string) : s1 +:+ t = s2 +:+ t → s1 = s2.
Proof.
  intros H. apply to_list_inj.
  apply (f_equal list_ascii_of_string) in H. rewrite !to_list_app in H.
  by apply app_inv_tail in H.
Qed.

Lemma app_assoc_string (s t u : string) : (s +:+ t) +:+ u = s +:+ t +:+ u.
Proof.
  induction s as [|c s IH]; [done|].
  change (String c ((s +:+ t) +:+ u) = String c (s +:+ t +:+ u)).
  by rewrite IH.
Qed.

Lemma to_int_string (z : Z) :
  NilZero.int_of_string (NilZero.string_of_int (Z.to_int z)) = Some (Z.to_int z).
Proof.
  apply NilZero.isi; destruct z; simpl; try discriminate;
    intros [= H]; by apply Unsigned.to_uint_nonnil in H.
Qed.

Lemma py_format_inj (a b : PyVal) : py_format a = py_format b → a = b.
Proof.
  destruct a as [|x], b as [|y]; simpl; intros H; try done.
  - pose proof (to_int_string y) as E. rewrite <- H in E. discriminate E.
  - pose proof (to_int_string x) as E. rewrite H in E. discriminate E.
  - pose proof (to_int_string x) as E. rewrite H, to_int_string in E.
    injection E as E. apply (f_equal Z.of_int) in E.
    rewrite !DecimalZ.of_to in E. by subst.
Qed.

Lemma py_format_head (v : PyVal) :
  ∃ c s, py_format v = String c s ∧ c ≠ "/"%char.
Proof.
  destruct v as [|z]; simpl.
  - by eexists _, _.
  - pose proof (to_int_string z) as E.
    destruct (NilZero.string_of_int (Z.to_int z)) as [|c s]; [done|].
    exists c, s. split; [done|]. intros ->. cbn in E.
    destruct (NilEmpty.uint_of_string s); discriminate E.
Qed.

(** For a file name that is not absolute, [os.path.join] puts the same
    prefix in front of the name. *)
Lemma os_path_join_prefix (a : string) :
  ∃ pre, ∀ c s, c ≠ "/"%char → os_path_join a (String c s) = pre +:+ String c s.
Proof.
  destruct a as [|a0 a'].
  - exists "". intros c s Hc. unfold os_path_join. simpl.
    by destruct (decide (c = "/"%char)).
  - destruct (ends_with_slash (String a0 a')) eqn:E.
    + exists (String a0 a'). intros c s Hc. unfold os_path_join.
      simpl starts_with_slash. destruct (decide (c = "/"%char)); [done|].
      by rewrite E.
    + exists (String a0 a' +:+ "/"). intros c s Hc. unfold os_path_join.
      simpl starts_with_slash. destruct (decide (c = "/"%char)); [done|].
      rewrite E. symmetry. apply app_assoc_string.
  Qed.

Lemma cache_file_name (env : Env) :
  ∃ pre, ∀ v ext, os_path_join (POSTER_CACHE_DIR env) (py_format v +:+ ext)
                  = pre +:+ py_format v +:+ ext.
Proof.
  destruct (os_path_join_prefix (POSTER_CACHE_DIR env)) as [pre Hpre].
  exists pre. intros v ext.
  destruct (py_format_head v) as (c & s & -> & Hc). by apply Hpre.
Qed.

Lemma _poster_path_inj (env : Env) (a b : PyVal) :
  _poster_path env a = _poster_path env b → a = b.
Proof.
  unfold _poster_path. destruct (cache_file_name env) as [pre Hpre]. rewrite !Hpre.
  intros H. apply String.app_inj, app_inj_tail in H. by apply py_format_inj.
Qed.

Lemma _fail_marker_path_inj (env : Env) (a b : PyVal) :
  _fail_marker_path env a = _fail_marker_path env b → a = b.
Proof.
  unfold _fail_marker_path. destruct (cache_file_name env) as [pre Hpre]. rewrite !Hpre.
  intros H. apply String.app_inj, app_inj_tail in H. by apply py_format_inj.
Qed.

Lemma poster_path_not_marker (env : Env) (a b : PyVal) :
  _poster_path env a ≠ _fail_marker_path env b.
Proof.
  unfold _poster_path, _fail_marker_path.
  destruct (cache_file_name env) as [pre Hpre]. rewrite !Hpre.
  unfold FAIL_MARKER_EXT. intros H. apply String.app_inj in H.
  apply (f_equal list_ascii_of_string) in H. rewrite !to_list_app in H.
  apply (f_equal (@rev ascii)) in H. rewrite !rev_app_distr in H.
  discriminate H.
Qed.

Lemma paths_same_base (env env' : Env) (v : PyVal) :
  BASE_DIR env' = BASE_DIR env →
  _poster_path env' v = _poster_path env v ∧
  _fail_marker_path env' v = _fail_marker_path env v.
Proof.
  intros H. unfold _poster_path, _fail_marker_path, POSTER_CACHE_DIR.
  by rewrite H.
Qed.

End paths.

(** ** The primitives of [fetch_poster] *)

Ltac unfold_monad :=
  unfold mbind, M_bind, mret, M_ret, try_except, raise in *.

(** Reading the answer: [or {}], [.get], [not] and [.lstrip] on a body that
    is known. *)
Ltac read_body :=
  unfold or_empty_dict, dict_get_poster_path, py_not, member_lstrip;
  cbv beta iota; unfold_monad; cbv beta iota zeta; simpl http_log.

Lemma world_eq (w w' : World) :
  files w = files w' → http_log w = http_log w' → slept w = slept w' → w = w'.
Proof. destruct w, w'; simpl; by intros -> -> ->. Qed.

Lemma _write_fail_marker_run (env : Env) (movie_id : PyVal) (w : World) :
  ∃ w', _write_fail_marker env movie_id w = (Ok (), w') ∧
        files w' = mark_files env movie_id (files w) ∧
        http_log w' = http_log w ∧ slept w' = slept w.
Proof.
  unfold _write_fail_marker, open_append_close, mark_files. unfold_monad.
  destruct (writable env _); [|by eexists].
  destruct (files w !! _) eqn:E; by eexists.
Qed.

Lemma _is_valid_movie_id_run (movie_id : PyVal) (w : World) :
  ∃ b, _is_valid_movie_id movie_id w = (Ok b, w) ∧ (b = true ↔ valid_id movie_id).
Proof.
  unfold _is_valid_movie_id, valid_id. unfold_monad.
  destruct movie_id as [|z]; simpl.
  - exists false. split; [done|]. split; [done|]. by intros (z & ? & _).
  - exists (0 <? z)%Z. split; [done|]. rewrite Z.ltb_lt. split.
    + intros H. by exists z.
    + by intros (z' & [= ->] & H).
Qed.

Lemma valid_id_cases (movie_id : PyVal) : valid_id movie_id ∨ ¬ valid_id movie_id.
Proof.
  destruct (_is_valid_movie_id_run movie_id {| files := ∅; http_log := []; slept := 0 |})
    as ([] & _ & H); [left; by apply H|right; intros H'; by apply H in H'].
Qed.

Lemma mark_files_lookup_marker (env : Env) (movie_id : PyVal) (f : gmap string string) :
  writable env (_fail_marker_path env movie_id) = true →
  is_Some (mark_files env movie_id f !! _fail_marker_path env movie_id).
Proof.
  intros H. unfold mark_files. rewrite H.
  destruct (f !! _) eqn:E; [by rewrite E|]. by rewrite lookup_insert_eq.
Qed.

Lemma mark_files_lookup_ne (env : Env) (movie_id : PyVal) (f : gmap string string) p :
  p ≠ _fail_marker_path env movie_id →
  mark_files env movie_id f !! p = f !! p.
Proof.
  intros H. unfold mark_files. destruct (writable env _); [|done].
  destruct (f !! _fail_marker_path env movie_id); [done|].
  by rewrite lookup_insert_ne.
Qed.

Lemma mark_files_lookup_Some (env : Env) (movie_id : PyVal) (f : gmap string string) p c :
  f !! p = Some c → mark_files env movie_id f !! p = Some c.
Proof.
  intros H. unfold mark_files. destruct (writable env _); [|done].
  destruct (f !! _fail_marker_path env movie_id) eqn:E; [done|].
  rewrite lookup_insert_ne; [done|]. intros <-. congruence.
Qed.

Lemma mark_files_cases (env : Env) (movie_id : PyVal) (f : gmap string string) :
  mark_files env movie_id f = f ∨
  (f !! _fail_marker_path env movie_id = None ∧
   mark_files env movie_id f = <[_fail_marker_path env movie_id := ""]> f).
Proof.
  unfold mark_files. destruct (writable env _); [|by left].
  destruct (f !! _) eqn:E; [by left|by right].
Qed.

(** ** One attempt and the retry loop *)

Ltac run_marker env movie_id w :=
  let w' := fresh "wm" in
  let E := fresh "Em" in
  let Hf := fresh "Hmf" in
  let Hl := fresh "Hml" in
  let Hs := fresh "Hms" in
  destruct (_write_fail_marker_run env movie_id w) as (w' & E & Hf & Hl & Hs);
  rewrite E in *.

Ltac log_grows :=
  eexists; split;
  [first [reflexivity | rewrite <- app_assoc; reflexivity] | simpl; lia].

(** What one attempt can do: it makes one or two requests, never sleeps,
    and either fails leaving the disk alone, or marks the identifier and
    returns nothing, or writes the poster file: in full, returning its
    path, or in part, raising [OSError]. *)
Lemma fetch_attempt_effect env movie_id timeout url cache_path w res w' :
  fetch_attempt env movie_id timeout url cache_path w = (res, w') →
  slept w' = slept w ∧
  (∃ extra, http_log w' = http_log w ++ extra ∧ 1 ≤ length extra ≤ 2) ∧
  ((files w' = files w ∧
    ∃ e, res = Raise e ∧
         (is_RequestException e = true ∨
          (e = AttributeError ∧ unreadable_answer env url timeout) ∨
          (e = OSError ∧ writable env cache_path = false)))
   ∨ (res = Ok None ∧ files w' = mark_files env movie_id (files w))
   ∨ ((res = Ok (Some cache_path) ∧ writable env cache_path = true ∨
       res = Raise OSError ∧ writable env cache_path = false) ∧
      ∃ data, files w' = <[cache_path := data]> (files w))).
Proof.
  unfold fetch_attempt, requests_get, raise_for_status, resp_json, open_write.
  unfold_monad.
  destruct (provider env (http_log w) _) as [e|resp] eqn:Hp.
  { intros [= <- <-]; simpl. split; [done|]. split; [log_grows|].
    left. split; [done|]. exists (net_exn e). split; [done|]. left. by destruct e. }
  set (w1 := {| files := files w; http_log := _; slept := slept w |}).
  destruct (status_code resp =? 404)%Z.
  { run_marker env movie_id w1. intros [= <- <-]. rewrite Hms, Hml, Hmf. simpl.
    split; [done|]. split; [log_grows|]. by right; left. }
  destruct ((400 <=? status_code resp) && (status_code resp <? 600))%Z.
  { intros [= <- <-]; simpl. split; [done|].
    split; [log_grows|].
    left. split; [done|]. exists HTTPError. by split; [|left]. }
  assert (∀ r, (r, w1) = (res, w') → r = Raise AttributeError →
               ¬ readable_body (body_json resp) →
               slept w' = slept w ∧
               (∃ extra, http_log w' = http_log w ++ extra ∧ 1 ≤ length extra ≤ 2) ∧
               ((files w' = files w ∧
                 ∃ e, res = Raise e ∧
                      (is_RequestException e = true ∨
                       (e = AttributeError ∧ unreadable_answer env url timeout) ∨
                       (e = OSError ∧ writable env cache_path = false)))
                ∨ (res = Ok None ∧ files w' = mark_files env movie_id (files w))
                ∨ ((res = Ok (Some cache_path) ∧ writable env cache_path = true ∨
                    res = Raise OSError ∧ writable env cache_path = false) ∧
                   ∃ data, files w' = <[cache_path := data]> (files w)))) as Hattr.
  { intros r [= <- <-] -> Hbad; simpl. split; [done|]. split; [log_grows|].
    left. split; [done|]. exists AttributeError. split; [done|]. right; left.
    split; [done|]. by exists (http_log w), resp. }
  assert (∀ wm, _write_fail_marker env movie_id w1 = (Ok (), wm) →
               (Ok None, wm) = (res, w') →
               slept w' = slept w ∧
               (∃ extra, http_log w' = http_log w ++ extra ∧ 1 ≤ length extra ≤ 2) ∧
               ((files w' = files w ∧
                 ∃ e, res = Raise e ∧
                      (is_RequestException e = true ∨
                       (e = AttributeError ∧ unreadable_answer env url timeout) ∨
                       (e = OSError ∧ writable env cache_path = false)))
                ∨ (res = Ok None ∧ files w' = mark_files env movie_id (files w))
                ∨ ((res = Ok (Some cache_path) ∧ writable env cache_path = true ∨
                    res = Raise OSError ∧ writable env cache_path = false) ∧
                   ∃ data, files w' = <[cache_path := data]> (files w)))) as Hmark.
  { intros wm Em [= <- <-].
    destruct (_write_fail_marker_run env movie_id w1) as (wm' & Em' & Hmf & Hml & Hms).
    rewrite Em in Em'. injection Em' as <-. rewrite Hms, Hml, Hmf. simpl.
    split; [done|]. split; [log_grows|]. by right; left. }
  destruct (body_json resp) as [|[p|]|[]| |] eqn:Hj; simpl.
  - intros [= <- <-]; simpl. split; [done|].
    split; [log_grows|].
    left. split; [done|]. exists JSONDecodeError. by split; [|left].
  - destruct p as [|c p]; simpl.
    { destruct (_write_fail_marker env movie_id w1) as [[[]|?] wm] eqn:Em;
        [by apply Hmark|].
      by destruct (_write_fail_marker_run env movie_id w1) as (? & Em' & _);
        rewrite Em in Em'. }
    destruct (provider env (http_log w ++ _) _) as [e|img].
    { intros [= <- <-]; simpl. split; [done|].
      split; [log_grows|].
      left. split; [done|]. exists (net_exn e). split; [done|]. left. by destruct e. }
    set (w2 := {| files := files w; http_log := _; slept := slept w |}).
    destruct (status_code img =? 404)%Z.
    { run_marker env movie_id w2. intros [= <- <-]. rewrite Hms, Hml, Hmf. simpl.
      split; [done|].
      split; [log_grows|].
      by right; left. }
    destruct ((400 <=? status_code img) && (status_code img <? 600))%Z.
    { intros [= <- <-]; simpl. split; [done|].
      split; [log_grows|].
      left. split; [done|]. exists HTTPError. by split; [|left]. }
    destruct (writable env cache_path) eqn:Hw.
    + intros [= <- <-]; simpl. split; [done|].
      split; [log_grows|].
      right; right. split; [by left|]. by eexists.
    + destruct (partial_write env cache_path) as [n|].
      * intros [= <- <-]; simpl. split; [done|].
        split; [log_grows|].
        right; right. split; [by right|]. by eexists.
      * intros [= <- <-]; simpl. split; [done|].
        split; [log_grows|].
        left. split; [done|]. exists OSError. split; [done|]. by right; right.
  - destruct (_write_fail_marker env movie_id w1) as [[[]|?] wm] eqn:Em;
      [by apply Hmark|].
    by destruct (_write_fail_marker_run env movie_id w1) as (? & Em' & _);
      rewrite Em in Em'.
  - intros Hrun. by eapply Hattr; [exact Hrun|..]; [|intros []].
  - destruct (_write_fail_marker env movie_id w1) as [[[]|?] wm] eqn:Em;
      [by apply Hmark|].
    by destruct (_write_fail_marker_run env movie_id w1) as (? & Em' & _);
      rewrite Em in Em'.
  - destruct (_write_fail_marker env movie_id w1) as [[[]|?] wm] eqn:Em;
      [by apply Hmark|].
    by destruct (_write_fail_marker_run env movie_id w1) as (? & Em' & _);
      rewrite Em in Em'.
  - intros Hrun. by eapply Hattr; [exact Hrun|..]; [|intros []].
Qed.

(** The loop: the disk changes at most once, by a marker or by the poster
    file; the exceptions that leave the loop are the [OSError] of a poster
    write and the [AttributeError] of a body the code cannot read. *)
Lemma fetch_loop_effect env movie_id timeout retries url cache_path attempts w res w' :
  fetch_loop env movie_id timeout retries url cache_path attempts w = (res, w') →
  (∃ extra, http_log w' = http_log w ++ extra) ∧
  ((files w' = files w ∧
    (res = Ok None ∨
     (res = Raise AttributeError ∧ unreadable_answer env url timeout) ∨
     (res = Raise OSError ∧ writable env cache_path = false)))
   ∨ (res = Ok None ∧ files w' = mark_files env movie_id (files w))
   ∨ ((res = Ok (Some cache_path) ∧ writable env cache_path = true ∨
       res = Raise OSError ∧ writable env cache_path = false) ∧
      ∃ data, files w' = <[cache_path := data]> (files w))).
Proof.
  revert w. induction attempts as [|attempt rest IH]; intros w; simpl.
  { intros [= <- <-]. split; [by exists []; rewrite app_nil_r|]. left. by split; [|left]. }
  unfold try_except at 1.
  destruct (fetch_attempt env movie_id timeout url cache_path w) as [r1 w1] eqn:E1.
  apply fetch_attempt_effect in E1 as (Hs & (ex & Hl & _) & Hc).
  destruct r1 as [a|e].
  { intros [= <- <-]. split; [by eexists|].
    destruct Hc as [(_ & e & ? & _)|[?|[[[? ?]|[? _]] ?]]];
      [done|by right; left|by right; right; split; [left|]|done]. }
  destruct Hc as [(Hf & e' & [= <-] & He)|[[? _]|[[[? _]|[[= ->] Hw]] Hd]]];
    [|done|done|].
  - destruct (is_RequestException e) eqn:Ereq.
    + destruct (attempt <? retries - 1)%Z.
      * unfold_monad. unfold time_sleep. intros Hrun.
        apply IH in Hrun as ((ex' & Hl') & Hc'). simpl in *.
        split; [exists (ex ++ ex'); by rewrite Hl', Hl, app_assoc|].
        by rewrite <- Hf.
      * unfold_monad. intros [= <- <-]. split; [by eexists|]. left. by split; [|left].
    + intros [= <- <-]. split; [by eexists|]. left. split; [done|]. right.
      destruct He as [He|[[-> ?]|[-> ?]]]; [congruence|by left|by right].
  - simpl. intros [= <- <-]. split; [by eexists|]. right; right.
    by split; [right|].
Qed.

(** ** The control flow of [fetch_poster] *)

Section fetch_poster_flow.
Context (env : Env) (movie_id : PyVal) (timeout : Q) (retries : Z) (w : World).

Lemma fetch_poster_no_key :
  py_truthy (TMDB_API_KEY env) = false →
  fetch_poster env movie_id timeout retries w = (Ok None, w).
Proof. intros H. unfold fetch_poster. by rewrite H. Qed.

Lemma fetch_poster_invalid :
  py_truthy (TMDB_API_KEY env) = true → ¬ valid_id movie_id →
  ∃ w', _write_fail_marker env movie_id w = (Ok (), w') ∧
        fetch_poster env movie_id timeout retries w = (Ok None, w').
Proof.
  intros Hk Hv. unfold fetch_poster. rewrite Hk. simpl. unfold_monad.
  destruct (_is_valid_movie_id_run movie_id w) as (b & -> & Hb).
  destruct b; [by destruct Hv; apply Hb|]. simpl.
  destruct (_write_fail_marker_run env movie_id w) as (w' & E & _).
  exists w'. by rewrite E.
Qed.

Lemma fetch_poster_cached :
  py_truthy (TMDB_API_KEY env) = true → valid_id movie_id →
  is_Some (files w !! _poster_path env movie_id) →
  fetch_poster env movie_id timeout retries w
  = (Ok (Some (_poster_path env movie_id)), w).
Proof.
  intros Hk Hv Hc. unfold fetch_poster. rewrite Hk. simpl. unfold_monad.
  destruct (_is_valid_movie_id_run movie_id w) as (b & -> & Hb).
  destruct b; [|apply Hb in Hv; done]. simpl.
  unfold os_path_exists. by rewrite bool_decide_eq_true_2.
Qed.

Lemma fetch_poster_marked :
  py_truthy (TMDB_API_KEY env) = true → valid_id movie_id →
  files w !! _poster_path env movie_id = None →
  is_Some (files w !! _fail_marker_path env movie_id) →
  fetch_poster env movie_id timeout retries w = (Ok None, w).
Proof.
  intros Hk Hv Hc Hm. unfold fetch_poster. rewrite Hk. simpl. unfold_monad.
  destruct (_is_valid_movie_id_run movie_id w) as (b & -> & Hb).
  destruct b; [|apply Hb in Hv; done]. simpl.
  unfold _has_fail_marker, os_path_exists.
  rewrite bool_decide_eq_false_2; [|rewrite Hc; by intros [? ?]].
  by rewrite bool_decide_eq_true_2.
Qed.

Lemma fetch_poster_absent :
  py_truthy (TMDB_API_KEY env) = true → valid_id movie_id →
  files w !! _poster_path env movie_id = None →
  files w !! _fail_marker_path env movie_id = None →
  fetch_poster env movie_id timeout retries w
  = fetch_loop env movie_id timeout retries
      (TMDB_MOVIE_URL movie_id (TMDB_API_KEY env))
      (_poster_path env movie_id) (py_range retries) w.
Proof.
  intros Hk Hv Hc Hm. unfold fetch_poster. rewrite Hk. simpl. unfold_monad.
  destruct (_is_valid_movie_id_run movie_id w) as (b & -> & Hb).
  destruct b; [|apply Hb in Hv; done]. simpl.
  unfold _has_fail_marker, os_path_exists.
  rewrite bool_decide_eq_false_2; [|rewrite Hc; by intros [? ?]].
  by rewrite bool_decide_eq_false_2; [|rewrite Hm; by intros [? ?]].
Qed.

(** The effect of one call on the disk and on the log. *)
Lemma fetch_poster_effect res w' :
  fetch_poster env movie_id timeout retries w = (res, w') →
  (∃ extra, http_log w' = http_log w ++ extra) ∧
  ((files w' = files w ∧
    (res = Ok None ∨
     (res = Ok (Some (_poster_path env movie_id)) ∧
      is_Some (files w !! _poster_path env movie_id)) ∨
     (res = Raise AttributeError ∧
      unreadable_answer env (TMDB_MOVIE_URL movie_id (TMDB_API_KEY env)) timeout) ∨
     (res = Raise OSError ∧ writable env (_poster_path env movie_id) = false)))
   ∨ (res = Ok None ∧ files w' = mark_files env movie_id (files w) ∧
      (valid_id movie_id → files w !! _poster_path env movie_id = None))
   ∨ ((res = Ok (Some (_poster_path env movie_id)) ∧
       writable env (_poster_path env movie_id) = true ∨
       res = Raise OSError ∧ writable env (_poster_path env movie_id) = false) ∧
      valid_id movie_id ∧
      files w !! _poster_path env movie_id = None ∧
      files w !! _fail_marker_path env movie_id = None ∧
      ∃ data, files w' = <[_poster_path env movie_id := data]> (files w))).
Proof.
  destruct (py_truthy (TMDB_API_KEY env)) eqn:Hk.
  2:{ rewrite fetch_poster_no_key by done. intros [= <- <-].
      split; [by exists []; rewrite app_nil_r|]. left. by split; [|left]. }
  destruct (valid_id_cases movie_id) as [Hv|Hv].
  2:{ destruct (fetch_poster_invalid Hk Hv) as (wm & Em & ->).
      destruct (_write_fail_marker_run env movie_id w) as (wm' & Em' & Hf & Hl & _).
      rewrite Em in Em'. injection Em' as <-. intros [= <- <-].
      split; [by exists []; rewrite app_nil_r|]. right; left. by split. }
  destruct (files w !! _poster_path env movie_id) as [b|] eqn:Hc.
  { rewrite fetch_poster_cached by (done || (by rewrite Hc)). intros [= <- <-].
    split; [by exists []; rewrite app_nil_r|]. left. split; [done|]. right; left.
    by split. }
  destruct (files w !! _fail_marker_path env movie_id) as [b|] eqn:Hm.
  { rewrite fetch_poster_marked by (done || (by rewrite Hm)). intros [= <- <-].
    split; [by exists []; rewrite app_nil_r|]. left. by split; [|left]. }
  rewrite fetch_poster_absent by done. intros Hrun.
  apply fetch_loop_effect in Hrun as (Hl & Hcases). split; [done|].
  destruct Hcases as [(Hf & [->|[[-> Hu]|[-> Hw]]])|[[-> Hf]|(Hres & data & Hf)]].
  - left. by split; [|left].
  - left. split; [done|]. by right; right; left.
  - left. split; [done|]. by right; right; right.
  - right; left. by split.
  - right; right. repeat split; try done. by exists data.
Qed.

End fetch_poster_flow.

(** ** The record of an identifier *)

Lemma record_Absent env w movie_id :
  record env w movie_id = Absent ↔
  files w !! _poster_path env movie_id = None ∧
  files w !! _fail_marker_path env movie_id = None.
Proof.
  unfold record.
  destruct (files w !! _poster_path env movie_id),
           (files w !! _fail_marker_path env movie_id);
    split; try done; intros [? ?]; done.
Qed.

Lemma record_same_files env w w' movie_id :
  files w' = files w → record env w' movie_id = record env w movie_id.
Proof. unfold record. by intros ->. Qed.

Lemma record_same_base env env' w movie_id :
  BASE_DIR env' = BASE_DIR env → record env' w movie_id = record env w movie_id.
Proof.
  intros H. unfold record.
  by destruct (paths_same_base env env' movie_id H) as [-> ->].
Qed.

Lemma mark_files_idemp env movie_id f :
  mark_files env movie_id (mark_files env movie_id f) = mark_files env movie_id f.
Proof.
  unfold mark_files. destruct (writable env _) eqn:Hw; [|by rewrite ?Hw].
  destruct (f !! _) eqn:E; [by rewrite E|]. by rewrite lookup_insert_eq.
Qed.

(** ** A provider that serves the poster *)

Lemma status_ok_flags (r : Response) :
  ¬ (400 ≤ status_code r < 600)%Z →
  (status_code r =? 404)%Z = false ∧
  ((400 <=? status_code r) && (status_code r <? 600))%Z = false.
Proof.
  intros H. split.
  - apply Z.eqb_neq. lia.
  - apply andb_false_iff.
    destruct (Z.leb_spec 400 (status_code r)); [right|by left].
    apply Z.ltb_ge. lia.
Qed.

Lemma status_transient_flags (r : Response) :
  (400 ≤ status_code r < 600)%Z → status_code r ≠ 404%Z →
  (status_code r =? 404)%Z = false ∧
  ((400 <=? status_code r) && (status_code r <? 600))%Z = true.
Proof.
  intros H1 H2. split.
  - by apply Z.eqb_neq.
  - apply andb_true_iff. split; [apply Z.leb_le|apply Z.ltb_lt]; lia.
Qed.

Lemma py_range_succ (n : Z) :
  (1 ≤ n)%Z → ∃ rest, py_range n = 0%Z :: rest.
Proof.
  intros H. unfold py_range.
  destruct (Z.to_nat n) as [|k] eqn:E; [lia|]. simpl. by eexists.
Qed.

(** An attempt against a provider that serves the poster comes down to the
    write of the poster file, after two requests. *)
Lemma fetch_attempt_healthy env movie_id timeout cache_path w data :
  healthy_for env movie_id timeout (http_log w) data →
  ∃ w2, files w2 = files w ∧ slept w2 = slept w ∧
        length (http_log w2) = length (http_log w) + 2 ∧
        fetch_attempt env movie_id timeout
          (TMDB_MOVIE_URL movie_id (TMDB_API_KEY env)) cache_path w
        = match open_write env cache_path data w2 with
          | (Ok _, w3) => (Ok (Some cache_path), w3)
          | (Raise e, w3) => (Raise e, w3)
          end.
Proof.
  intros (meta & img & p & H1 & S1 & J1 & Hp & H2 & S2 & <-).
  unfold fetch_attempt, requests_get, raise_for_status, resp_json.
  unfold_monad.
  apply status_ok_flags in S1 as [E1 F1]. apply status_ok_flags in S2 as [E2 F2].
  rewrite H1, E1, F1, J1. destruct p as [|c p]; [done|].
  read_body. rewrite H2, E2, F2.
  exists {| files := files w;
            http_log :=
              (http_log w ++
               [{| req_url := TMDB_MOVIE_URL movie_id (TMDB_API_KEY env);
                   req_timeout := timeout |}]) ++
              [{| req_url := TMDB_IMAGE_BASE +:+ lstrip_slash (String c p);
                  req_timeout := timeout |}];
            slept := slept w |}.
  split; [done|]. split; [done|]. split; [simpl; rewrite !length_app; simpl; lia|].
  by destruct (open_write _ _ _ _) as [[[]|?] ?].
Qed.

Lemma fetch_poster_healthy env movie_id timeout retries w data :
  py_truthy (TMDB_API_KEY env) = true → valid_id movie_id →
  record env w movie_id = Absent →
  (1 ≤ retries)%Z →
  healthy_for env movie_id timeout (http_log w) data →
  writable env (_poster_path env movie_id) = true →
  ∃ w', fetch_poster env movie_id timeout retries w
        = (Ok (Some (_poster_path env movie_id)), w') ∧
        files w' = <[_poster_path env movie_id := data]> (files w).
Proof.
  intros Hk Hv Ha Hr Hh Hw.
  apply record_Absent in Ha as [Hc Hm].
  rewrite fetch_poster_absent by done.
  destruct (py_range_succ retries Hr) as [rest ->]. simpl.
  unfold try_except at 1.
  destruct (fetch_attempt_healthy env movie_id timeout (_poster_path env movie_id)
              w data Hh) as (w2 & Hf & _ & _ & ->).
  unfold open_write. rewrite Hw, Hf. by eexists.
Qed.

(** ** Transient failures *)

Lemma fetch_attempt_transient env movie_id timeout url cache_path w :
  transient (provider env (http_log w) {| req_url := url; req_timeout := timeout |}) →
  ∃ e, is_RequestException e = true ∧
       fetch_attempt env movie_id timeout url cache_path w
       = (Raise e, {| files := files w;
                      http_log := http_log w ++ [{| req_url := url; req_timeout := timeout |}];
                      slept := slept w |}).
Proof.
  intros Ht. unfold fetch_attempt, requests_get, raise_for_status. unfold_monad.
  destruct (provider env (http_log w) _) as [e|resp]; simpl in Ht.
  - exists (net_exn e). by destruct e.
  - destruct Ht as [H1 H2].
    destruct (status_transient_flags resp H1 H2) as [-> ->]. by exists HTTPError.
Qed.

(** An attempt that fails transiently raises an exception the loop
    catches, and leaves the disk and the clock alone. *)
Lemma attempt_fails_run env movie_id timeout cache_path w log1 :
  attempt_fails env movie_id timeout (http_log w) log1 →
  ∃ e, is_RequestException e = true ∧
       fetch_attempt env movie_id timeout
         (TMDB_MOVIE_URL movie_id (TMDB_API_KEY env)) cache_path w
       = (Raise e, {| files := files w; http_log := log1; slept := slept w |}).
Proof.
  intros [Ht|meta H1 S1 J1|meta p H1 S1 J1 Hp Ht].
  - by apply fetch_attempt_transient.
  - unfold metadata_request in H1.
    unfold fetch_attempt, requests_get, raise_for_status, resp_json. unfold_monad.
    apply status_ok_flags in S1 as [E1 F1]. rewrite H1, E1, F1, J1.
    by exists JSONDecodeError.
  - unfold metadata_request, image_request in *.
    unfold fetch_attempt, requests_get, raise_for_status, resp_json. unfold_monad.
    apply status_ok_flags in S1 as [E1 F1]. rewrite H1, E1, F1, J1.
    destruct p as [|c p]; [done|]. read_body.
    destruct (provider env (http_log w ++ _) _) as [e|img]; simpl in Ht.
    + exists (net_exn e). split; [by destruct e|]. simpl. by rewrite <- app_assoc.
    + destruct Ht as [T1 T2].
      destruct (status_transient_flags img T1 T2) as [-> ->].
      exists HTTPError. split; [done|]. simpl. by rewrite <- app_assoc.
Qed.

Lemma image_url_not_metadata (s : string) movie_id api_key :
  TMDB_IMAGE_BASE +:+ s ≠ TMDB_MOVIE_URL movie_id api_key.
Proof. unfold TMDB_IMAGE_BASE, TMDB_MOVIE_URL. intros H. discriminate H. Qed.

(** A failing attempt sends the metadata request once, and at most one
    more request. *)
Lemma attempt_fails_log env movie_id timeout log log1 :
  attempt_fails env movie_id timeout log log1 →
  ∃ extra, log1 = log ++ extra ∧
           length (metadata_requests env movie_id extra) = 1 ∧
           1 ≤ length extra ≤ 2.
Proof.
  unfold metadata_requests.
  intros [Ht|meta H1 S1 J1|meta p H1 S1 J1 Hp Ht]; eexists; (split; [reflexivity|]).
  - rewrite filter_cons_True by reflexivity. rewrite filter_nil.
    cbn [length]. lia.
  - rewrite filter_cons_True by reflexivity. rewrite filter_nil.
    cbn [length]. lia.
  - rewrite filter_cons_True by reflexivity.
    rewrite filter_cons_False by apply image_url_not_metadata.
    rewrite filter_nil. cbn [length]. lia.
Qed.

Lemma attempts_fail_log env movie_id timeout n log log' :
  attempts_fail env movie_id timeout n log log' →
  ∃ extra, log' = log ++ extra ∧
           length (metadata_requests env movie_id extra) = n ∧
           n ≤ length extra ≤ 2 * n.
Proof.
  induction 1 as [log|n log log1 log2 Hone _ (ex & -> & Hc & Hlen)].
  { exists []. by rewrite app_nil_r. }
  apply attempt_fails_log in Hone as (ex1 & -> & Hc1 & Hlen1).
  exists (ex1 ++ ex). rewrite app_assoc. split; [reflexivity|].
  unfold metadata_requests in *. rewrite filter_app, !length_app. lia.
Qed.

(** With every attempt failing transiently, the loop over the attempts
    [k, k+1, ..., retries-1] makes them all, sleeps between attempts and
    gives up without touching the disk. *)
Lemma fetch_loop_all_fail env movie_id timeout retries cache_path :
  ∀ n k w log', (Z.of_nat (k + n) = Z.max 0 retries)%Z →
    attempts_fail env movie_id timeout n (http_log w) log' →
    ∃ w', fetch_loop env movie_id timeout retries
            (TMDB_MOVIE_URL movie_id (TMDB_API_KEY env)) cache_path
            (map Z.of_nat (seq k n)) w = (Ok None, w') ∧
          http_log w' = log' ∧
          files w' = files w ∧
          slept w' = slept w + (n - 1).
Proof.
  induction n as [|n IH]; intros k w log' Hk Hall; simpl.
  { inversion Hall; subst. exists w. by rewrite Nat.add_0_r. }
  inversion Hall as [|n' l l1 l2 Hone Hrest]; subst.
  unfold try_except at 1.
  destruct (attempt_fails_run env movie_id timeout cache_path w l1 Hone)
    as (e & He & ->). rewrite He.
  destruct (Z.ltb_spec (Z.of_nat k) (retries - 1)) as [Hlt|Hge].
  - unfold_monad. unfold time_sleep. simpl.
    edestruct (IH (S k)) as (w' & -> & Hl & Hf & Hs); [lia|exact Hrest|].
    exists w'. split; [done|]. simpl in *. repeat split; try done.
    destruct n; [lia|]. lia.
  - assert (n = 0) as -> by lia. inversion Hrest; subst.
    unfold_monad. eexists. split; [done|]. simpl. repeat split; lia.
Qed.

(** ** Claims about [fetch_poster] *)

(** C8. Without a provider credential the call returns nothing at once, for
    any identifier: the world is left as it was, so no request is logged
    and no marker (or any other file) is written. *)
Theorem fetch_poster_without_credential env movie_id timeout retries w :
  py_truthy (TMDB_API_KEY env) = false →
  ∃ w', fetch_poster env movie_id timeout retries w = (Ok None, w') ∧
        w' = w ∧ http_log w' = http_log w ∧ files w' = files w.
Proof. intros H. exists w. by rewrite fetch_poster_no_key. Qed.

Lemma fetch_poster_without_credential_witness :
  py_truthy (TMDB_API_KEY Demo.env_no_key) = false ∧
  ∃ w', fetch_poster Demo.env_no_key (PyInt (-7)) default_timeout default_retries
          Demo.w0 = (Ok None, w') ∧
        w' = Demo.w0 ∧ http_log w' = http_log Demo.w0 ∧ files w' = files Demo.w0.
Proof.
  split; [reflexivity|].
  apply (fetch_poster_without_credential Demo.env_no_key (PyInt (-7))).
  reflexivity.
Defined.

(** C9, as stated, fails: on a cache directory that refuses the write, the
    call for the invalid identifier 0 returns nothing and leaves no marker. *)
Lemma invalid_id_marker_can_be_missing : ¬ invalid_id_leaves_marker.
Proof.
  intros H.
  destruct (H Demo.env_read_only (PyInt 0) default_timeout default_retries Demo.w0)
    as (w' & Hrun & Hm & _).
  - reflexivity.
  - intros (z & [= <-] & ?). lia.
  - vm_compute in Hrun. injection Hrun as <-.
    destruct Hm as [c Hc]. vm_compute in Hc. discriminate Hc.
Qed.

(** C9, amended. With a credential, a call for an identifier that does not
    coerce to a positive integer makes no request and returns nothing; its
    whole effect is the one call of [_write_fail_marker] on the raw
    identifier.  That call is best effort: the marker is there afterwards
    if the disk accepts the write, and the world is unchanged if it refuses. *)
Theorem fetch_poster_invalid_id env movie_id timeout retries w :
  py_truthy (TMDB_API_KEY env) = true →
  ¬ valid_id movie_id →
  ∃ w', fetch_poster env movie_id timeout retries w = (Ok None, w') ∧
        _write_fail_marker env movie_id w = (Ok (), w') ∧
        http_log w' = http_log w ∧
        (writable env (_fail_marker_path env movie_id) = true →
         has_marker env w' movie_id) ∧
        (writable env (_fail_marker_path env movie_id) = false → w' = w).
Proof.
  intros Hk Hv. destruct (fetch_poster_invalid env movie_id timeout retries w Hk Hv)
    as (w' & Em & Hrun).
  destruct (_write_fail_marker_run env movie_id w) as (w2 & Em2 & Hf & Hl & Hs).
  rewrite Em in Em2. injection Em2 as <-.
  exists w'. repeat split; try done.
  - intros Hw. unfold has_marker. rewrite Hf. by apply mark_files_lookup_marker.
  - intros Hw. apply world_eq; try done. rewrite Hf. unfold mark_files. by rewrite Hw.
Qed.

Lemma fetch_poster_invalid_id_witness :
  ∃ w', fetch_poster Demo.env PyNone default_timeout default_retries Demo.w0
          = (Ok None, w') ∧
        _write_fail_marker Demo.env PyNone Demo.w0 = (Ok (), w') ∧
        http_log w' = http_log Demo.w0 ∧
        (writable Demo.env (_fail_marker_path Demo.env PyNone) = true →
         has_marker Demo.env w' PyNone) ∧
        (writable Demo.env (_fail_marker_path Demo.env PyNone) = false → w' = Demo.w0).
Proof.
  apply (fetch_poster_invalid_id Demo.env PyNone).
  - reflexivity.
  - intros (z & Hz & _). discriminate Hz.
Defined.

(** Whenever the provider serves the poster and the disk does not take the
    file, the [OSError] leaves [fetch_poster]; no marker is written, and
    the poster file is left with the bytes written before the failure, if
    it was created at all. *)
Lemma fetch_poster_write_refused env movie_id timeout retries w data :
  py_truthy (TMDB_API_KEY env) = true → valid_id movie_id →
  record env w movie_id = Absent →
  (1 ≤ retries)%Z →
  healthy_for env movie_id timeout (http_log w) data →
  writable env (_poster_path env movie_id) = false →
  ∃ w', fetch_poster env movie_id timeout retries w = (Raise OSError, w') ∧
        files w' = match partial_write env (_poster_path env movie_id) with
                   | None => files w
                   | Some n =>
                       <[_poster_path env movie_id := String.substring 0 n data]>
                         (files w)
                   end.
Proof.
  intros Hk Hv Ha Hr Hh Hw.
  apply record_Absent in Ha as [Hc Hm].
  rewrite fetch_poster_absent by done.
  destruct (py_range_succ retries Hr) as [rest ->]. simpl.
  unfold try_except at 1.
  destruct (fetch_attempt_healthy env movie_id timeout (_poster_path env movie_id)
              w data Hh) as (w2 & Hf & _ & _ & ->).
  unfold open_write. rewrite Hw, Hf.
  destruct (partial_write env _); by eexists.
Qed.

(** C2: the code does not do what the claim says.  The provider serves the
    poster of movie 1, the cache directory refuses the write: [fetch_poster]
    lets the [OSError] escape instead of returning nothing, and so does
    [recommend].  No marker is written and no further request is made, as
    the claim says. *)
Theorem poster_write_error_escapes :
  fetch_poster Demo.env_read_only (PyInt 1) default_timeout default_retries Demo.w0
  = (Raise OSError,
     {| files := ∅;
        http_log :=
          [ {| req_url := TMDB_MOVIE_URL (PyInt 1) (Some Demo.key);
               req_timeout := default_timeout |};
            {| req_url := TMDB_IMAGE_BASE +:+ "one.jpg";
               req_timeout := default_timeout |} ];
        slept := 0 |})
  ∧ (recommend Demo.env_read_only Demo.movies Demo.similarity "Gamma" 5 Demo.w0).1
    = Raise OSError.
Proof. split; vm_compute; reflexivity. Qed.

(** C5. For a valid identifier with neither poster nor marker on disk, if
    every attempt fails transiently (no answer, or an error status other
    than 404, to the metadata request or to the image request, or a
    metadata body that is not JSON), the call makes exactly [retries]
    attempts (none if [retries] is negative): it sends the metadata request
    [retries] times and nothing but the requests of those attempts, sleeps
    one second between attempts, returns nothing and leaves the disk as it
    was, so that no marker is written and the record stays absent.  A later
    call that finds the provider serving the poster then fetches it and
    caches it. *)
Theorem fetch_poster_all_transient env movie_id timeout retries w log' :
  py_truthy (TMDB_API_KEY env) = true →
  valid_id movie_id →
  record env w movie_id = Absent →
  attempts_fail env movie_id timeout (Z.to_nat retries) (http_log w) log' →
  ∃ w',
    fetch_poster env movie_id timeout retries w = (Ok None, w') ∧
    http_log w' = log' ∧
    (∃ extra, http_log w' = http_log w ++ extra ∧
              length (metadata_requests env movie_id extra) = Z.to_nat retries ∧
              Z.to_nat retries ≤ length extra ≤ 2 * Z.to_nat retries) ∧
    slept w' = slept w + (Z.to_nat retries - 1) ∧
    files w' = files w ∧
    ¬ has_marker env w' movie_id ∧
    record env w' movie_id = Absent ∧
    ∀ env2 timeout2 retries2 data,
      BASE_DIR env2 = BASE_DIR env →
      py_truthy (TMDB_API_KEY env2) = true →
      (1 ≤ retries2)%Z →
      healthy_for env2 movie_id timeout2 (http_log w') data →
      writable env2 (_poster_path env movie_id) = true →
      ∃ w'', fetch_poster env2 movie_id timeout2 retries2 w'
             = (Ok (Some (_poster_path env movie_id)), w'') ∧
             record env w'' movie_id = Cached data.
Proof.
  intros Hk Hv Ha Hall. pose proof Ha as [Hc Hm]%record_Absent.
  rewrite fetch_poster_absent by done. unfold py_range.
  destruct (fetch_loop_all_fail env movie_id timeout retries
              (_poster_path env movie_id) (Z.to_nat retries) 0 w log')
    as (w' & Hrun & Hl & Hf & Hs); [lia|done|].
  exists w'. split; [done|]. split; [done|].
  split; [rewrite Hl; by apply (attempts_fail_log env movie_id timeout)|].
  split; [done|]. split; [done|].
  assert (record env w' movie_id = Absent) as Ha'
    by (by rewrite (record_same_files env w w')).
  split; [unfold has_marker; rewrite Hf, Hm; by intros [? ?]|].
  split; [done|].
  intros env2 timeout2 retries2 data Hb Hk2 Hr2 Hh Hw.
  destruct (paths_same_base env env2 movie_id Hb) as [HP HM].
  destruct (fetch_poster_healthy env2 movie_id timeout2 retries2 w' data)
    as (w'' & Hrun2 & Hf2); try done.
  { by rewrite (record_same_base env env2). }
  { by rewrite HP. }
  exists w''. rewrite HP in Hrun2, Hf2. split; [done|].
  apply record_Absent in Ha' as [Hc' Hm']. unfold record.
  rewrite Hf2, lookup_insert_eq, lookup_insert_ne, Hm'; [done|].
  apply poster_path_not_marker.
Qed.

Lemma fetch_poster_all_transient_witness :
  ∃ w',
    fetch_poster Demo.env_image_down (PyInt 1) default_timeout default_retries
      Demo.w0 = (Ok None, w') ∧
    http_log w'
    = [ metadata_request Demo.env_image_down (PyInt 1) default_timeout;
        image_request "/one.jpg" default_timeout;
        metadata_request Demo.env_image_down (PyInt 1) default_timeout;
        image_request "/one.jpg" default_timeout;
        metadata_request Demo.env_image_down (PyInt 1) default_timeout;
        image_request "/one.jpg" default_timeout ] ∧
    (∃ extra, http_log w' = http_log Demo.w0 ++ extra ∧
              length (metadata_requests Demo.env_image_down (PyInt 1) extra)
              = Z.to_nat default_retries ∧
              Z.to_nat default_retries ≤ length extra
              ≤ 2 * Z.to_nat default_retries) ∧
    slept w' = slept Demo.w0 + (Z.to_nat default_retries - 1) ∧
    files w' = files Demo.w0 ∧
    ¬ has_marker Demo.env_image_down w' (PyInt 1) ∧
    record Demo.env_image_down w' (PyInt 1) = Absent ∧
    ∀ env2 timeout2 retries2 data,
      BASE_DIR env2 = BASE_DIR Demo.env_image_down →
      py_truthy (TMDB_API_KEY env2) = true →
      (1 ≤ retries2)%Z →
      healthy_for env2 (PyInt 1) timeout2 (http_log w') data →
      writable env2 (_poster_path Demo.env_image_down (PyInt 1)) = true →
      ∃ w'', fetch_poster env2 (PyInt 1) timeout2 retries2 w'
             = (Ok (Some (_poster_path Demo.env_image_down (PyInt 1))), w'') ∧
             record Demo.env_image_down w'' (PyInt 1) = Cached data.
Proof.
  apply (fetch_poster_all_transient Demo.env_image_down (PyInt 1)).
  - reflexivity.
  - exists 1%Z. split; [reflexivity|lia].
  - reflexivity.
  - change (Z.to_nat default_retries) with 3. simpl http_log.
    repeat (eapply attempts_fail_S;
            [eapply (fails_at_image _ _ _ _ _ "/one.jpg");
             [reflexivity|simpl; lia|reflexivity|discriminate|simpl; lia]|]).
    apply attempts_fail_0.
Defined.

(** A call on an identifier whose record is not absent makes no request. *)
Lemma fetch_poster_terminal_quiet env movie_id timeout retries w :
  record env w movie_id ≠ Absent →
  http_log (fetch_poster env movie_id timeout retries w).2 = http_log w.
Proof.
  intros Hr.
  destruct (py_truthy (TMDB_API_KEY env)) eqn:Hk;
    [|by rewrite fetch_poster_no_key].
  destruct (valid_id_cases movie_id) as [Hv|Hv].
  2:{ destruct (fetch_poster_invalid env movie_id timeout retries w Hk Hv)
        as (w' & Em & ->).
      destruct (_write_fail_marker_run env movie_id w) as (w2 & Em2 & _ & Hl & _).
      rewrite Em in Em2. by injection Em2 as <-. }
  destruct (files w !! _poster_path env movie_id) as [b|] eqn:Hc.
  { by rewrite fetch_poster_cached by (done || (by rewrite Hc)). }
  destruct (files w !! _fail_marker_path env movie_id) as [b|] eqn:Hm.
  { by rewrite fetch_poster_marked by (done || (by rewrite Hm)). }
  destruct Hr. by apply record_Absent.
Qed.

(** C7. If a call returned and left the identifier with a cached poster or
    a fail marker on disk, a second call (with any timeout and retry bound)
    returns the same result and leaves the world as it is: no request is
    made and nothing is written. *)
Theorem fetch_poster_idempotent env movie_id timeout retries timeout' retries'
    w res w' :
  fetch_poster env movie_id timeout retries w = (Ok res, w') →
  record env w' movie_id ≠ Absent →
  fetch_poster env movie_id timeout' retries' w' = (Ok res, w') ∧
  http_log (fetch_poster env movie_id timeout' retries' w').2 = http_log w'.
Proof.
  intros Hrun Hr. split; [|by apply fetch_poster_terminal_quiet].
  destruct (py_truthy (TMDB_API_KEY env)) eqn:Hk.
  2:{ rewrite fetch_poster_no_key in Hrun by done. injection Hrun as <- <-.
      by rewrite fetch_poster_no_key. }
  destruct (valid_id_cases movie_id) as [Hv|Hv].
  2:{ destruct (fetch_poster_invalid env movie_id timeout retries w Hk Hv)
        as (w1 & Em & Hrun1).
      rewrite Hrun1 in Hrun. injection Hrun as <- <-.
      destruct (fetch_poster_invalid env movie_id timeout' retries' w1 Hk Hv)
        as (w2 & Em2 & ->).
      destruct (_write_fail_marker_run env movie_id w) as (? & E & Hf & Hl & Hs).
      rewrite Em in E. injection E as <-.
      destruct (_write_fail_marker_run env movie_id w1) as (? & E & Hf2 & Hl2 & Hs2).
      rewrite Em2 in E. injection E as <-.
      f_equal. apply world_eq; try done.
      by rewrite Hf2, Hf, mark_files_idemp. }
  destruct (files w !! _poster_path env movie_id) as [b|] eqn:Hc.
  { rewrite fetch_poster_cached in Hrun by (done || (by rewrite Hc)).
    injection Hrun as <- <-.
    by rewrite fetch_poster_cached by (done || (by rewrite Hc)). }
  destruct (files w !! _fail_marker_path env movie_id) as [b|] eqn:Hm.
  { rewrite fetch_poster_marked in Hrun by (done || (by rewrite Hm)).
    injection Hrun as <- <-.
    by rewrite fetch_poster_marked by (done || (by rewrite Hm)). }
  rewrite fetch_poster_absent in Hrun by done.
  apply fetch_loop_effect in Hrun as (_ & Hcases).
  destruct Hcases as [(Hf & _)|[([= ->] & Hf)|([[[= ->] _]|[? _]] & data & Hf)]];
    [| | |done].
  - destruct Hr. apply record_Absent. by rewrite Hf.
  - destruct (mark_files_cases env movie_id (files w)) as [E|[_ E]];
      rewrite E in Hf.
    + destruct Hr. apply record_Absent. by rewrite Hf.
    + apply fetch_poster_marked; try done.
      * rewrite Hf, lookup_insert_ne; [done|].
        intros E'. symmetry in E'. by apply poster_path_not_marker in E'.
      * by rewrite Hf, lookup_insert_eq.
  - apply fetch_poster_cached; try done. by rewrite Hf, lookup_insert_eq.
Qed.

Lemma fetch_poster_idempotent_witness :
  fetch_poster Demo.env (PyInt 1) default_timeout default_retries
    (fetch_poster Demo.env (PyInt 1) default_timeout default_retries Demo.w0).2
  = (Ok (Some "/app/poster_cache/1.jpg"),
     (fetch_poster Demo.env (PyInt 1) default_timeout default_retries Demo.w0).2) ∧
  http_log
    (fetch_poster Demo.env (PyInt 1) default_timeout default_retries
       (fetch_poster Demo.env (PyInt 1) default_timeout default_retries Demo.w0).2).2
  = http_log
      (fetch_poster Demo.env (PyInt 1) default_timeout default_retries Demo.w0).2.
Proof.
  apply (fetch_poster_idempotent Demo.env (PyInt 1) default_timeout
           default_retries default_timeout default_retries Demo.w0).
  - vm_compute. reflexivity.
  - vm_compute. discriminate.
Defined.

(** ** The record over sequences of calls *)

Lemma record_frame env w w' x :
  files w' !! _poster_path env x = files w !! _poster_path env x →
  files w' !! _fail_marker_path env x = files w !! _fail_marker_path env x →
  record env w' x = record env w x.
Proof. unfold record. by intros -> ->. Qed.

(** One call, on any identifier, moves the record of [x] only out of
    [Absent], and never into [Corrupted]. *)
Lemma fetch_step_record base env x w w' :
  BASE_DIR env = base →
  fetch_step base w w' →
  valid_id x ∨ files w !! _poster_path env x = None →
  (valid_id x ∨ files w' !! _poster_path env x = None) ∧
  (record env w x = Absent ∨ record env w' x = record env w x) ∧
  (record env w x ≠ Corrupted → record env w' x ≠ Corrupted).
Proof.
  intros Hb (env' & y & t & r & res & Hb' & Hrun) HJ.
  assert (BASE_DIR env' = BASE_DIR env) as Hbase by congruence.
  apply fetch_poster_effect in Hrun as (_ & Hcases).
  destruct (paths_same_base env env' y Hbase) as [HP HM].
  assert (files w' = files w ∨
          (files w !! _fail_marker_path env y = None ∧
           (valid_id y → files w !! _poster_path env y = None) ∧
           files w' = <[_fail_marker_path env y := ""]> (files w)) ∨
          (valid_id y ∧ files w !! _poster_path env y = None ∧
           files w !! _fail_marker_path env y = None ∧
           ∃ data, files w' = <[_poster_path env y := data]> (files w)))
    as [Hf|[(Hm & Hn & Hf)|(Hv & Hc & Hm & data & Hf)]].
  { rewrite <- HP, <- HM.
    destruct Hcases as [[Hf _]|[(_ & Hf & Hn)|(_ & Hv & Hc & Hm & data & Hf)]].
    - by left.
    - destruct (mark_files_cases env' y (files w)) as [E|[Hm E]];
        rewrite E in Hf; [by left|]. right; left. by repeat split.
    - right; right. repeat split; try done. by exists data. }
  - rewrite (record_same_files env w w') by done. rewrite Hf.
    repeat split; [done|by right|done].
  - destruct (decide (y = x)) as [->|Hne].
    + assert (files w !! _poster_path env x = None) as Hc
        by (destruct HJ as [Hv|?]; [by apply Hn|done]).
      assert (files w' !! _poster_path env x = None) as Hc'.
      { rewrite Hf, lookup_insert_ne; [done|].
        intros E. symmetry in E. by apply poster_path_not_marker in E. }
      split; [by destruct HJ; [left|right]|].
      split; [left; by apply record_Absent|].
      intros _. unfold record. by rewrite Hc', Hf, lookup_insert_eq.
    + assert (record env w' x = record env w x) as Hrec.
      { apply record_frame; rewrite Hf, lookup_insert_ne; try done.
        - intros E. symmetry in E. by apply poster_path_not_marker in E.
        - intros E. by apply _fail_marker_path_inj in E. }
      rewrite Hrec. split; [|by split; [right|]].
      destruct HJ as [?|Hc]; [by left|right].
      rewrite Hf, lookup_insert_ne; [done|].
      intros E. symmetry in E. by apply poster_path_not_marker in E.
  - destruct (decide (y = x)) as [->|Hne].
    + split; [by left|]. split; [left; by apply record_Absent|].
      intros _. unfold record.
      rewrite Hf, lookup_insert_eq, lookup_insert_ne, Hm; [done|].
      apply poster_path_not_marker.
    + assert (record env w' x = record env w x) as Hrec.
      { apply record_frame; rewrite Hf, lookup_insert_ne; try done.
        - intros E. by apply _poster_path_inj in E.
        - apply poster_path_not_marker. }
      rewrite Hrec. split; [|by split; [right|]].
      destruct HJ as [?|Hc']; [by left|right].
      rewrite Hf, lookup_insert_ne; [done|].
      intros E. by apply _poster_path_inj in E.
Qed.

(** C6. Over any sequence of [fetch_poster] calls on one cache directory,
    by any callers and on any identifiers, the record of an identifier [x]
    (a valid one, or any one that has no poster file to begin with, as on a
    disk only [fetch_poster] writes to) changes only from [Absent]: a
    cached poster keeps its bytes, a marked identifier stays marked, and a
    record that does not hold both files never comes to hold both.  Once
    the record is not absent, a call for [x] makes no request. *)
Theorem record_transitions base env x w w' :
  BASE_DIR env = base →
  rtc (fetch_step base) w w' →
  valid_id x ∨ files w !! _poster_path env x = None →
  (record env w x = Absent ∨ record env w' x = record env w x) ∧
  (record env w x ≠ Corrupted → record env w' x ≠ Corrupted) ∧
  (record env w' x ≠ Absent →
   ∀ env' timeout retries, BASE_DIR env' = base →
     http_log (fetch_poster env' x timeout retries w').2 = http_log w').
Proof.
  intros Hb Hrtc HJ.
  assert ((valid_id x ∨ files w' !! _poster_path env x = None) ∧
          (record env w x = Absent ∨ record env w' x = record env w x) ∧
          (record env w x ≠ Corrupted → record env w' x ≠ Corrupted))
    as (_ & H1 & H2).
  { induction Hrtc as [w|w w1 w2 Hstep Hrest IH].
    - repeat split; [done|by right|done].
    - destruct (fetch_step_record base env x w w1 Hb Hstep HJ) as (HJ1 & Ha & Hc).
      destruct (IH HJ1) as (HJ2 & Ha2 & Hc2).
      split; [done|]. split; [|by intros ?; apply Hc2, Hc].
      destruct Ha as [?|E]; [by left|]. rewrite E in Ha2.
      destruct Ha2 as [?|E2]; [by left|right]. congruence. }
  split; [done|]. split; [done|].
  intros Hr env' timeout retries Hb'.
  apply fetch_poster_terminal_quiet.
  rewrite (record_same_base env env'); [done|congruence].
Qed.

Lemma record_transitions_witness :
  (record Demo.env Demo.w0 (PyInt 2) = Absent ∨
   record Demo.env
     (fetch_poster Demo.env (PyInt 2) default_timeout default_retries Demo.w0).2
     (PyInt 2) = record Demo.env Demo.w0 (PyInt 2)) ∧
  (record Demo.env Demo.w0 (PyInt 2) ≠ Corrupted →
   record Demo.env
     (fetch_poster Demo.env (PyInt 2) default_timeout default_retries Demo.w0).2
     (PyInt 2) ≠ Corrupted) ∧
  (record Demo.env
     (fetch_poster Demo.env (PyInt 2) default_timeout default_retries Demo.w0).2
     (PyInt 2) ≠ Absent →
   ∀ env' timeout retries, BASE_DIR env' = "/app" →
     http_log
       (fetch_poster env' (PyInt 2) timeout retries
          (fetch_poster Demo.env (PyInt 2) default_timeout default_retries
             Demo.w0).2).2
     = http_log
         (fetch_poster Demo.env (PyInt 2) default_timeout default_retries
            Demo.w0).2).
Proof.
  apply (record_transitions "/app" Demo.env (PyInt 2) Demo.w0).
  - reflexivity.
  - apply rtc_once.
    exists Demo.env, (PyInt 2), default_timeout, default_retries,
      (fetch_poster Demo.env (PyInt 2) default_timeout default_retries Demo.w0).1.
    split; [reflexivity|]. apply surjective_pairing.
  - right. reflexivity.
Defined.

(** ** Ranking: [enumerate], [sorted] and the slice *)

Section ranking.

Lemma enumerate_from_lookup {A} (l : list A) k j :
  enumerate_from k l !! j = (λ x, (k + j, x)) <$> l !! j.
Proof.
  revert k j. induction l as [|x l IH]; intros k [|j]; simpl; try done.
  - by rewrite Nat.add_0_r.
  - rewrite IH. destruct (l !! j); simpl; [|done]. do 2 f_equal. lia.
Qed.

Lemma enumerate_from_length {A} (l : list A) k :
  length (enumerate_from k l) = length l.
Proof. revert k. induction l; intros k; simpl; [done|]. by rewrite IHl. Qed.

Lemma enumerate_from_elem {A} (l : list A) k i x :
  (i, x) ∈ enumerate_from k l → k ≤ i ∧ l !! (i - k) = Some x.
Proof.
  intros (j & Hj)%list_elem_of_lookup_1. rewrite enumerate_from_lookup in Hj.
  destruct (l !! j) eqn:E; simpl in Hj; [|done]. injection Hj as <- <-.
  split; [lia|]. by replace (k + j - k) with j by lia.
Qed.

Lemma insert_desc_perm {A} (key : A → Q) x l :
  insert_desc key x l ≡ₚ x :: l.
Proof.
  induction l as [|y l IH]; simpl; [done|].
  destruct (Qle_bool (key y) (key x)); [done|].
  by rewrite IH, Permutation_swap.
Qed.

Lemma py_sorted_desc_perm {A} (key : A → Q) l :
  py_sorted_desc key l ≡ₚ l.
Proof.
  induction l as [|x l IH]; simpl; [done|].
  by rewrite insert_desc_perm, IH.
Qed.

Lemma py_sorted_desc_length {A} (key : A → Q) l :
  length (py_sorted_desc key l) = length l.
Proof. by rewrite py_sorted_desc_perm. Qed.

Lemma before_intro (a b : nat * Q) :
  (b.2 <= a.2)%Q → a.1 < b.1 → before a b.
Proof.
  intros [H|H]%Qle_lteq Hi; [by left|right]. split; [by symmetry|done].
Qed.

Lemma before_score (a b : nat * Q) : before a b → (b.2 <= a.2)%Q.
Proof. intros [H|[H _]]; [by apply Qlt_le_weak|]. rewrite H. apply Qle_refl. Qed.

Lemma before_irrefl (a : nat * Q) : ¬ before a a.
Proof. intros [H|[_ H]]; [by apply Qlt_irrefl in H|lia]. Qed.

Lemma insert_desc_sorted (x : nat * Q) l :
  StronglySorted before l →
  Forall (λ y, x.1 < y.1) l →
  StronglySorted before (insert_desc snd x l).
Proof.
  induction l as [|y l IH]; intros Hs Hi; simpl.
  { by repeat constructor. }
  apply StronglySorted_inv in Hs as [Hs Hy].
  apply Forall_cons in Hi as [Hxy Hi].
  destruct (Qle_bool y.2 x.2) eqn:E.
  - apply Qle_bool_iff in E. constructor; [by constructor|].
    constructor; [by apply before_intro|].
    rewrite Forall_forall in Hy, Hi |- *. intros z Hz.
    apply before_intro; [|by apply Hi].
    eapply Qle_trans; [apply before_score, Hy, Hz|done].
  - constructor; [by apply IH|].
    rewrite insert_desc_perm. constructor; [|done].
    left. apply Qnot_le_lt. intros H%Qle_bool_iff. congruence.
Qed.

(** The sorted row lists the columns by the ranking order. *)
Lemma scored_sorted (distances : list Q) k :
  StronglySorted before (py_sorted_desc snd (enumerate_from k distances)).
Proof.
  revert k. induction distances as [|d l IH]; intros k; simpl; [constructor|].
  apply insert_desc_sorted; [apply IH|].
  rewrite py_sorted_desc_perm. apply Forall_forall. intros [i x] Hi.
  apply enumerate_from_elem in Hi as [Hi _]. simpl. lia.
Qed.

Lemma scored_elem (distances : list Q) i s :
  (i, s) ∈ py_sorted_desc snd (py_enumerate distances) →
  distances !! i = Some s.
Proof.
  rewrite py_sorted_desc_perm. intros [_ H]%enumerate_from_elem.
  by rewrite Nat.sub_0_r in H.
Qed.

Lemma StronglySorted_lookup {A} (R : relation A) l a b x y :
  StronglySorted R l → a < b → l !! a = Some x → l !! b = Some y → R x y.
Proof.
  intros Hs. revert a b. induction Hs as [|z l Hs IH Hz]; intros a b Hab Ha Hb.
  { done. }
  destruct b as [|b]; [lia|]. simpl in Hb.
  destruct a as [|a]; simpl in Ha.
  - injection Ha as ->. rewrite Forall_forall in Hz.
    by eapply Hz, list_elem_of_lookup_2.
  - eapply IH; [|done..]. lia.
Qed.

Lemma py_slice_bound_1 (len : Z) : py_slice_bound len 1 = Z.min 1 len.
Proof. reflexivity. Qed.

Lemma py_slice_bound_nonneg (len i : Z) :
  (0 ≤ i)%Z → py_slice_bound len i = Z.min i len.
Proof. intros H. unfold py_slice_bound. destruct (Z.ltb_spec i 0); [lia|done]. Qed.

(** [l[1:stop]] takes its entries from position 1 on, in order. *)
Lemma py_slice_lookup {A} (l : list A) stop j x :
  py_slice 1 stop l !! j = Some x → l !! S j = Some x.
Proof.
  unfold py_slice. cbv zeta. rewrite py_slice_bound_1.
  intros H. apply lookup_take_Some in H as [H _].
  rewrite lookup_drop in H.
  destruct l as [|y l]; [by rewrite lookup_nil in H|].
  replace (Z.to_nat (Z.min 1 (Z.of_nat (length (y :: l))))) with 1 in H; [done|].
  simpl length. lia.
Qed.

Lemma py_slice_length {A} (l : list A) (stop : Z) :
  (0 ≤ stop)%Z →
  Z.of_nat (length (py_slice 1 stop l))
  = Z.max 0 (Z.min (stop - 1) (Z.of_nat (length l) - 1)).
Proof.
  intros H. unfold py_slice. cbv zeta.
  rewrite py_slice_bound_1, py_slice_bound_nonneg by done.
  rewrite length_take, length_drop. lia.
Qed.

Lemma StronglySorted_take {A} (R : relation A) (l : list A) n :
  StronglySorted R l → StronglySorted R (take n l).
Proof.
  intros H. rewrite <- (take_drop n l) in H.
  by apply StronglySorted_app_1_l in H.
Qed.

Lemma StronglySorted_drop {A} (R : relation A) (l : list A) n :
  StronglySorted R l → StronglySorted R (drop n l).
Proof.
  intros H. rewrite <- (take_drop n l) in H.
  by apply StronglySorted_app_1_r in H.
Qed.

Lemma py_slice_sorted {A} (R : relation A) (l : list A) start stop :
  StronglySorted R l → StronglySorted R (py_slice start stop l).
Proof.
  intros H. unfold py_slice. cbv zeta.
  apply StronglySorted_take, StronglySorted_drop, H.
Qed.

Lemma candidates_sorted (distances : list Q) top_n :
  StronglySorted before (candidates distances top_n).
Proof. apply py_slice_sorted, scored_sorted. Qed.

Lemma candidates_elem (distances : list Q) top_n i s :
  (i, s) ∈ candidates distances top_n → distances !! i = Some s.
Proof.
  intros (j & Hj)%list_elem_of_lookup_1. apply py_slice_lookup in Hj.
  by eapply scored_elem, list_elem_of_lookup_2.
Qed.

Lemma candidates_length (distances : list Q) top_n :
  (-1 ≤ top_n)%Z →
  Z.of_nat (length (candidates distances top_n))
  = Z.max 0 (Z.min top_n (Z.of_nat (length distances) - 1)).
Proof.
  intros H. unfold candidates. rewrite py_slice_length by lia.
  rewrite py_sorted_desc_length. unfold py_enumerate.
  rewrite enumerate_from_length. lia.
Qed.

(** If the query's own score tops its row, the query's column is ranked
    first, and is therefore not among the candidates. *)
Lemma candidates_exclude_self (distances : list Q) top_n i :
  self_ranked_first i distances →
  Forall (λ c, c.1 ≠ i) (candidates distances top_n).
Proof.
  intros Hself. apply Forall_forall. intros [i' s] Hc Heq.
  simpl in Heq. subst i. rename i' into i.
  apply list_elem_of_lookup_1 in Hc as [j Hj]. apply py_slice_lookup in Hj.
  destruct (py_sorted_desc snd (py_enumerate distances) !! 0) as [[h sh]|] eqn:Hh.
  2:{ apply lookup_ge_None in Hh. apply lookup_lt_Some in Hj. lia. }
  pose proof (StronglySorted_lookup before _ 0 (S j) _ _
                (scored_sorted distances 0) (Nat.lt_0_succ j) Hh Hj) as Hb.
  apply list_elem_of_lookup_2, scored_elem in Hh, Hj. simpl in *.
  destruct (Hself s h sh Hj Hh) as [Hlt Hgt].
  destruct (Nat.lt_total h i) as [Hcmp|[->|Hcmp]].
  - specialize (Hlt Hcmp). destruct Hb as [Hb|[Hb _]]; simpl in *; lra.
  - assert (sh = s) as -> by congruence. by apply before_irrefl in Hb.
  - specialize (Hgt Hcmp). destruct Hb as [Hb|[_ Hb]]; simpl in *; [lra|lia].
Qed.

End ranking.

(** ** The control flow of [recommend] *)

Lemma recommend_unknown env movies similarity title top_n w :
  unknown_title movies title →
  recommend env movies similarity title top_n w = (Ok [], w).
Proof.
  unfold unknown_title, recommend. destruct (title_col movies); [|done].
  by intros ->.
Qed.

Lemma recommend_out_of_bounds env movies similarity title top_n w i :
  resolves_out_of_bounds movies similarity title i →
  recommend env movies similarity title top_n w = (Ok [], w).
Proof.
  intros (titles & Ht & Hh & e & Hs). unfold recommend, title_matches. rewrite Ht.
  destruct (title_mask titles title) as [|i0 rest]; [done|].
  injection Hh as ->. simpl. unfold pure_result. unfold_monad. by rewrite Hs.
Qed.

Lemma recommend_resolved env movies similarity title top_n w i distances :
  resolves movies similarity title i distances →
  recommend env movies similarity title top_n w
  = recommend_loop env movies (candidates distances top_n) [] w.
Proof.
  intros (titles & Ht & Hh & Hs). unfold recommend, title_matches. rewrite Ht.
  destruct (title_mask titles title) as [|i0 rest]; [done|].
  injection Hh as ->. simpl. unfold pure_result. unfold_monad. by rewrite Hs.
Qed.

Lemma title_cases movies similarity title :
  unknown_title movies title ∨
  (∃ i, resolves_out_of_bounds movies similarity title i) ∨
  (∃ i distances, resolves movies similarity title i distances).
Proof.
  unfold unknown_title, resolves_out_of_bounds, resolves, title_matches.
  destruct (title_col movies) as [titles|]; [|by left].
  destruct (title_mask titles title) as [|i rest] eqn:E; [by left|right].
  destruct (py_getitem similarity (index movies i)) as [distances|e] eqn:Hs.
  - right. exists i, distances, titles. by rewrite E.
  - left. exists i, titles. rewrite E. repeat split; try done. by exists e.
Qed.

Lemma unknown_title_mask movies title titles :
  title_col movies = Some titles → unknown_title movies title →
  title_mask titles title = [].
Proof.
  unfold unknown_title, title_matches. intros ->. apply fmap_nil_inv.
Qed.

Lemma resolves_excludes movies similarity title i distances :
  resolves movies similarity title i distances →
  ¬ unknown_title movies title ∧
  ∀ i', ¬ resolves_out_of_bounds movies similarity title i'.
Proof.
  intros (t & Ht & Hh & Hs). split.
  - intros Hu. by rewrite (unknown_title_mask _ _ _ Ht Hu) in Hh.
  - intros i' (t' & Ht' & Hh' & e & He).
    assert (t = t') as <- by congruence.
    assert (i = i') as <- by congruence. congruence.
Qed.

(** Under the default index the label of a row is its position, and the
    lookup of the label is the lookup of the position. *)
Lemma py_getitem_RangeIndex {A} (l : list A) i :
  py_getitem l (RangeIndex i)
  = match l !! i with Some x => Ok x | None => Raise IndexError end.
Proof.
  unfold py_getitem, RangeIndex.
  destruct (Z.ltb_spec (Z.of_nat i) 0); [lia|].
  destruct (Z.ltb_spec (Z.of_nat i) 0); [lia|]. by rewrite Nat2Z.id.
Qed.

Lemma resolves_functional movies similarity title i i' d d' :
  resolves movies similarity title i d →
  resolves movies similarity title i' d' → i = i' ∧ d = d'.
Proof.
  intros (t & Ht & Hh & Hs) (t' & Ht' & Hh' & Hs').
  assert (t = t') as <- by congruence.
  assert (i = i') as <- by congruence. split; congruence.
Qed.

(** Every entry the loop appends is built from the candidate of the same
    position. *)
Lemma recommend_loop_built env movies cands acc w recs w' :
  recommend_loop env movies cands acc w = (Ok recs, w') →
  ∃ new, recs = acc ++ new ∧ Forall2 (built_from movies) new cands.
Proof.
  revert acc w. induction cands as [|[idx s] rest IH]; intros acc w; simpl.
  { unfold_monad. intros [= <- <-]. exists []. by rewrite app_nil_r. }
  unfold iloc. unfold_monad.
  destruct (decide (idx < n_rows movies)); [|done]. simpl.
  match goal with
  | |- context [match ?m w with _ => _ end] => destruct (m w) as [[p|e] w1]
  end; [|done].
  intros (new & -> & HF)%IH.
  exists ((title_at movies idx, p) :: new). rewrite <- app_assoc.
  split; [done|]. by constructor.
Qed.

(** Without a credential no poster is looked up: the loop returns one
    title-only entry per candidate and leaves the world alone. *)
Lemma recommend_loop_no_key env movies cands acc w :
  py_truthy (TMDB_API_KEY env) = false →
  Forall (λ c, c.1 < n_rows movies) cands →
  recommend_loop env movies cands acc w
  = (Ok (acc ++ map (λ c, (title_at movies c.1, None)) cands), w).
Proof.
  intros Hk. revert acc. induction cands as [|[idx s] rest IH]; intros acc HF; simpl.
  { by rewrite app_nil_r. }
  apply Forall_cons in HF as [Hi HF]. simpl in Hi.
  unfold iloc. unfold_monad.
  destruct (decide (idx < n_rows movies)); [|done]. simpl.
  destruct (default PyNone (movie_id_at movies idx)).
  - rewrite IH by done. by rewrite <- app_assoc.
  - rewrite fetch_poster_no_key by done. rewrite IH by done.
    by rewrite <- app_assoc.
Qed.

Lemma candidates_in_bounds movies distances top_n :
  length distances ≤ n_rows movies →
  Forall (λ c, c.1 < n_rows movies) (candidates distances top_n).
Proof.
  intros H. apply Forall_forall. intros [i s] Hc%candidates_elem.
  apply lookup_lt_Some in Hc. simpl. lia.
Qed.

Lemma recommend_no_key env movies similarity title top_n w i distances :
  py_truthy (TMDB_API_KEY env) = false →
  resolves movies similarity title i distances →
  length distances ≤ n_rows movies →
  recommend env movies similarity title top_n w
  = (Ok (map (λ c, (title_at movies c.1, None)) (candidates distances top_n)), w).
Proof.
  intros Hk Hr Hl. rewrite (recommend_resolved _ _ _ _ _ _ i distances) by done.
  by rewrite recommend_loop_no_key by (done || by apply candidates_in_bounds).
Qed.

Lemma recommend_built env movies similarity title top_n w i distances recs w' :
  resolves movies similarity title i distances →
  recommend env movies similarity title top_n w = (Ok recs, w') →
  Forall2 (built_from movies) recs (candidates distances top_n).
Proof.
  intros Hr. rewrite (recommend_resolved _ _ _ _ _ _ i distances) by done.
  by intros (new & -> & HF)%recommend_loop_built.
Qed.

Lemma built_from_titles movies recs cands :
  Forall2 (built_from movies) recs cands →
  recs.*1 = map (λ c, title_at movies c.1) cands.
Proof.
  induction 1 as [|r c recs cands H _ IH]; [done|].
  rewrite fmap_cons, IH. simpl. by rewrite H.
Qed.

(** ** Claims about [recommend] *)

(** C1, as stated, fails: with a matrix that has no row for the query, the
    call returns normally. *)
Lemma out_of_bounds_returns_normally : ¬ out_of_bounds_raises.
Proof.
  intros H.
  destruct (H Demo.env_no_key Demo.movies Demo.short "Beta" 5%Z Demo.w0 1)
    as (e & w' & Hrun).
  - exists ["Alpha"; "Beta"; "Gamma"]. split; [reflexivity|].
    split; [reflexivity|]. by exists IndexError.
  - vm_compute in Hrun. discriminate Hrun.
Qed.

(** C1, amended. When the row index resolved for the query title (the
    index label of the first row that carries the title) is out of bounds
    for the similarity matrix, the lookup error is caught and the call
    returns the empty list, with no effect on the world. *)
Theorem recommend_index_out_of_bounds env movies similarity title top_n w i :
  resolves_out_of_bounds movies similarity title i →
  recommend env movies similarity title top_n w = (Ok [], w).
Proof. apply recommend_out_of_bounds. Qed.

Lemma recommend_index_out_of_bounds_witness :
  recommend Demo.env Demo.movies Demo.short "Gamma" 5 Demo.w0 = (Ok [], Demo.w0).
Proof.
  apply (recommend_index_out_of_bounds Demo.env Demo.movies Demo.short "Gamma" 5
           Demo.w0 2).
  exists ["Alpha"; "Beta"; "Gamma"]. split; [reflexivity|].
  split; [reflexivity|]. by exists IndexError.
Defined.

Lemma candidates_after_first (distances : list Q) top_n :
  (0 ≤ top_n)%Z →
  candidates distances top_n
  = take (Z.to_nat top_n) (drop 1 (py_sorted_desc snd (py_enumerate distances))).
Proof.
  intros H. unfold candidates, py_slice. cbv zeta.
  generalize (py_sorted_desc snd (py_enumerate distances)). intros l.
  rewrite py_slice_bound_1, py_slice_bound_nonneg by lia.
  destruct l as [|x l]; [by rewrite !drop_nil, !take_nil|].
  replace (Z.to_nat (Z.min 1 (Z.of_nat (length (x :: l))))) with 1
    by (simpl length; lia).
  simpl length. change (drop 1 (x :: l)) with l.
  destruct (Z.le_gt_cases top_n (Z.of_nat (length l))) as [Hle|Hgt].
  - f_equal. lia.
  - rewrite !take_ge; [done|lia..].
Qed.

(** C3, as stated, fails on both counts: with a matrix whose diagonal is
    not the maximum of its row the query's own row is returned, and with a
    negative [top_n] more than [top_n] entries are returned. *)
Lemma own_row_can_be_returned : ¬ never_own_row ∧ ¬ at_most_top_n.
Proof.
  split; intros H.
  - destruct (H Demo.env_no_key Demo.movies Demo.skewed "Alpha" 5%Z Demo.w0 0
                [1 # 2; 9 # 10; 1 # 10]%Q
                [(Some "Alpha", None); (Some "Gamma", None)] Demo.w0)
      as [_ Hself].
    + by exists ["Alpha"; "Beta"; "Gamma"].
    + vm_compute. reflexivity.
    + vm_compute in Hself. apply Forall_cons in Hself as [Hne _]. by apply Hne.
  - assert (Z.of_nat (length [(Some "Beta", @None string)]) ≤ -2)%Z as Hle.
    { apply (H Demo.env_no_key Demo.movies Demo.similarity "Alpha" (-2)%Z Demo.w0 0
               [1; 1 # 2; 1 # 2]%Q _ Demo.w0).
      - by exists ["Alpha"; "Beta"; "Gamma"].
      - vm_compute. reflexivity. }
    simpl in Hle. lia.
Qed.

(** C3, amended. For a title whose row (the first that carries it, at
    position [i]) has an index label that the similarity matrix can look
    up, giving the row [distances], and [top_n ≥ 0]: a call that returns
    gives at most [top_n] entries, built in order from the ranked columns
    of [distances] that follow the first-ranked one; none of them is the
    query's own row, the one at position [i], provided the score in column
    [i] tops [distances].  Where the label of the query's row is its
    position, as under the default index, [distances] is the query's own
    row of the matrix; under another index it need not be.  Without a
    credential and with the row no longer than the catalog the call does
    return. *)
Theorem recommend_at_most_top_n env movies similarity title top_n w i distances :
  resolves movies similarity title i distances →
  (0 ≤ top_n)%Z →
  (∀ recs w',
     recommend env movies similarity title top_n w = (Ok recs, w') →
     (Z.of_nat (length recs) ≤ top_n)%Z ∧
     Forall2 (built_from movies) recs (candidates distances top_n) ∧
     candidates distances top_n
     = take (Z.to_nat top_n)
         (drop 1 (py_sorted_desc snd (py_enumerate distances))) ∧
     (self_ranked_first i distances →
      Forall (λ c, c.1 ≠ i) (candidates distances top_n))) ∧
  (index movies i = RangeIndex i → similarity !! i = Some distances) ∧
  (py_truthy (TMDB_API_KEY env) = false →
   length distances ≤ n_rows movies →
   ∃ recs, recommend env movies similarity title top_n w = (Ok recs, w)).
Proof.
  intros Hr Hn. split; [|split].
  - intros recs w' Hrun.
    pose proof (recommend_built _ _ _ _ _ _ _ _ _ _ Hr Hrun) as HF.
    split; [|split; [done|split]].
    + rewrite (Forall2_length _ _ _ HF), candidates_length by lia. lia.
    + by apply candidates_after_first.
    + apply candidates_exclude_self.
  - destruct Hr as (t & _ & _ & Hs). intros Hi.
    rewrite Hi, py_getitem_RangeIndex in Hs.
    destruct (similarity !! i); [by injection Hs as ->|done].
  - intros Hk Hl. eexists. by apply (recommend_no_key _ _ _ _ _ _ i distances).
Qed.

Lemma recommend_at_most_top_n_witness :
  (∀ recs w',
     recommend Demo.env Demo.movies Demo.similarity "Gamma" 5 Demo.w0
       = (Ok recs, w') →
     (Z.of_nat (length recs) ≤ 5)%Z ∧
     Forall2 (built_from Demo.movies) recs (candidates [1 # 2; 1 # 4; 1]%Q 5) ∧
     candidates [1 # 2; 1 # 4; 1]%Q 5
     = take (Z.to_nat 5)
         (drop 1 (py_sorted_desc snd (py_enumerate [1 # 2; 1 # 4; 1]%Q))) ∧
     (self_ranked_first 2 [1 # 2; 1 # 4; 1]%Q →
      Forall (λ c, c.1 ≠ 2) (candidates [1 # 2; 1 # 4; 1]%Q 5))) ∧
  (index Demo.movies 2 = RangeIndex 2 →
   Demo.similarity !! 2 = Some [1 # 2; 1 # 4; 1]%Q) ∧
  (py_truthy (TMDB_API_KEY Demo.env) = false →
   length [1 # 2; 1 # 4; 1]%Q ≤ n_rows Demo.movies →
   ∃ recs, recommend Demo.env Demo.movies Demo.similarity "Gamma" 5 Demo.w0
           = (Ok recs, Demo.w0)).
Proof.
  apply (recommend_at_most_top_n Demo.env Demo.movies Demo.similarity "Gamma" 5
           Demo.w0 2 [1 # 2; 1 # 4; 1]%Q).
  - exists ["Alpha"; "Beta"; "Gamma"]. repeat split; reflexivity.
  - lia.
Defined.

(** C4. For a title whose row index has a similarity row, the entries of a
    returned list are built, in order, from the candidates; each candidate
    carries the score of its column; along the list the scores do not
    increase, and of two candidates with equal scores the one with the
    smaller column index comes first.  Any two calls that return, in
    whatever state of disk and network, list the same titles in the same
    order.  Without a credential and with the row no longer than the
    catalog the call does return. *)
Theorem recommend_ranked env movies similarity title top_n w i distances :
  resolves movies similarity title i distances →
  (∀ recs w',
     recommend env movies similarity title top_n w = (Ok recs, w') →
     Forall2 (built_from movies) recs (candidates distances top_n) ∧
     (∀ c, c ∈ candidates distances top_n → distances !! c.1 = Some c.2) ∧
     (∀ a b x y, a < b →
        candidates distances top_n !! a = Some x →
        candidates distances top_n !! b = Some y →
        (y.2 <= x.2)%Q ∧ ((x.2 == y.2)%Q → x.1 < y.1)) ∧
     (∀ env2 w2 recs2 w2',
        recommend env2 movies similarity title top_n w2 = (Ok recs2, w2') →
        recs2.*1 = recs.*1)) ∧
  (py_truthy (TMDB_API_KEY env) = false →
   length distances ≤ n_rows movies →
   ∃ recs, recommend env movies similarity title top_n w = (Ok recs, w)).
Proof.
  intros Hr. split.
  - intros recs w' Hrun.
    pose proof (recommend_built _ _ _ _ _ _ _ _ _ _ Hr Hrun) as HF.
    split; [done|]. split; [|split].
    + intros [j s]. apply candidates_elem.
    + intros a b x y Hab Ha Hb.
      pose proof (StronglySorted_lookup before _ a b x y
                    (candidates_sorted distances top_n) Hab Ha Hb) as Hbef.
      split; [by apply before_score|].
      intros Heq. destruct Hbef as [Hlt|[_ Hidx]]; [|done].
      rewrite Heq in Hlt. by apply Qlt_irrefl in Hlt.
    + intros env2 w2 recs2 w2' Hrun2.
      pose proof (recommend_built _ _ _ _ _ _ _ _ _ _ Hr Hrun2) as HF2.
      by rewrite (built_from_titles _ _ _ HF), (built_from_titles _ _ _ HF2).
  - intros Hk Hl. eexists. by apply (recommend_no_key _ _ _ _ _ _ i distances).
Qed.

Lemma recommend_ranked_witness :
  (∀ recs w',
     recommend Demo.env Demo.movies Demo.similarity "Alpha" 5 Demo.w0
       = (Ok recs, w') →
     Forall2 (built_from Demo.movies) recs (candidates [1; 1 # 2; 1 # 2]%Q 5) ∧
     (∀ c, c ∈ candidates [1; 1 # 2; 1 # 2]%Q 5 →
           [1; 1 # 2; 1 # 2]%Q !! c.1 = Some c.2) ∧
     (∀ a b x y, a < b →
        candidates [1; 1 # 2; 1 # 2]%Q 5 !! a = Some x →
        candidates [1; 1 # 2; 1 # 2]%Q 5 !! b = Some y →
        (y.2 <= x.2)%Q ∧ ((x.2 == y.2)%Q → x.1 < y.1)) ∧
     (∀ env2 w2 recs2 w2',
        recommend env2 Demo.movies Demo.similarity "Alpha" 5 w2 = (Ok recs2, w2') →
        recs2.*1 = recs.*1)) ∧
  (py_truthy (TMDB_API_KEY Demo.env) = false →
   length [1; 1 # 2; 1 # 2]%Q ≤ n_rows Demo.movies →
   ∃ recs, recommend Demo.env Demo.movies Demo.similarity "Alpha" 5 Demo.w0
           = (Ok recs, Demo.w0)).
Proof.
  apply (recommend_ranked Demo.env Demo.movies Demo.similarity "Alpha" 5
           Demo.w0 0 [1; 1 # 2; 1 # 2]%Q).
  exists ["Alpha"; "Beta"; "Gamma"]. repeat split; reflexivity.
Defined.

(** C10, as stated, fails: with [top_n = -2] and a row of three scores the
    slice [scored[1:-1]] holds one entry, where the formula gives none. *)
Lemma negative_top_n_breaks_count : ¬ entry_count_formula.
Proof.
  intros H.
  destruct (H Demo.env_no_key Demo.movies Demo.similarity "Alpha" (-2)%Z Demo.w0 0
              [1; 1 # 2; 1 # 2]%Q) as (recs & w' & Hrun & Hlen).
  - reflexivity.
  - by exists ["Alpha"; "Beta"; "Gamma"].
  - simpl. lia.
  - vm_compute in Hrun. injection Hrun as <- <-. simpl in Hlen. lia.
Qed.

(** C10, amended. Without a credential, and with the query's similarity row
    no longer than the catalog, the call returns for every title and every
    [top_n] and leaves the world alone.  The list is empty when the title is
    unknown, when there is no title column and when the lookup of the index
    label of the query's row fails on the matrix; otherwise, for
    [top_n ≥ -1], it has exactly max(0, min(top_n, rowLength - 1)) entries,
    where the row is the one the matrix holds at that label. *)
Theorem recommend_total_without_credential env movies similarity title top_n w :
  py_truthy (TMDB_API_KEY env) = false →
  (∀ i distances, resolves movies similarity title i distances →
                  length distances ≤ n_rows movies) →
  ∃ recs,
    recommend env movies similarity title top_n w = (Ok recs, w) ∧
    (unknown_title movies title → recs = []) ∧
    (∀ i, resolves_out_of_bounds movies similarity title i → recs = []) ∧
    (∀ i distances, resolves movies similarity title i distances →
       (-1 ≤ top_n)%Z →
       Z.of_nat (length recs)
       = Z.max 0 (Z.min top_n (Z.of_nat (length distances) - 1))).
Proof.
  intros Hk Hb.
  destruct (title_cases movies similarity title)
    as [Hu|[[i Ho]|(i & distances & Hr)]].
  - exists []. split; [by apply recommend_unknown|]. repeat split; try done.
    intros i distances Hr. by apply resolves_excludes in Hr as [Hr _].
  - exists []. split; [by eapply recommend_out_of_bounds|]. repeat split; try done.
    intros i' distances Hr. apply resolves_excludes in Hr as [_ Hr].
    by destruct (Hr i).
  - eexists. split; [by apply (recommend_no_key _ _ _ _ _ _ i distances), (Hb i)|].
    pose proof (resolves_excludes _ _ _ _ _ Hr) as [Hknown Hin].
    split; [|split].
    + intros Hu. by destruct Hknown.
    + intros i' Ho. by destruct (Hin i').
    + intros i' d' Hr' Hn.
      destruct (resolves_functional _ _ _ _ _ _ _ Hr Hr') as [<- <-].
      rewrite length_map. by apply candidates_length.
Qed.

Lemma recommend_total_without_credential_witness :
  ∃ recs,
    recommend Demo.env_no_key Demo.movies Demo.similarity "Beta" 5 Demo.w0
      = (Ok recs, Demo.w0) ∧
    (unknown_title Demo.movies "Beta" → recs = []) ∧
    (∀ i, resolves_out_of_bounds Demo.movies Demo.similarity "Beta" i → recs = []) ∧
    (∀ i distances, resolves Demo.movies Demo.similarity "Beta" i distances →
       (-1 ≤ 5)%Z →
       Z.of_nat (length recs)
       = Z.max 0 (Z.min 5 (Z.of_nat (length distances) - 1))).
Proof.
  apply (recommend_total_without_credential Demo.env_no_key Demo.movies
           Demo.similarity "Beta" 5 Demo.w0).
  - reflexivity.
  - intros i distances (t & Ht & Hh & Hs).
    injection Ht as <-. vm_compute in Hh. injection Hh as <-.
    vm_compute in Hs. injection Hs as <-. simpl. lia.
Defined.

(** * Further properties of the code *)

(** ** Cache files *)

(** Distinct identifiers have distinct poster files and distinct markers,
    and no poster file is the marker of any identifier. *)
Theorem cache_files_distinct env a b :
  (_poster_path env a = _poster_path env b → a = b) ∧
  (_fail_marker_path env a = _fail_marker_path env b → a = b) ∧
  _poster_path env a ≠ _fail_marker_path env b.
Proof.
  split; [apply _poster_path_inj|].
  split; [apply _fail_marker_path_inj|apply poster_path_not_marker].
Qed.

(** [_write_fail_marker] never raises and makes no request; it leaves every
    other file alone, keeps a marker that is already there as it is, and a
    second call changes nothing more. *)
Theorem _write_fail_marker_safe env movie_id w :
  ∃ w', _write_fail_marker env movie_id w = (Ok (), w') ∧
        http_log w' = http_log w ∧ slept w' = slept w ∧
        (∀ p, p ≠ _fail_marker_path env movie_id →
              files w' !! p = files w !! p) ∧
        (∀ c, files w !! _fail_marker_path env movie_id = Some c →
              files w' !! _fail_marker_path env movie_id = Some c) ∧
        _write_fail_marker env movie_id w' = (Ok (), w').
Proof.
  destruct (_write_fail_marker_run env movie_id w) as (w' & E & Hf & Hl & Hs).
  exists w'. split; [done|]. split; [done|]. split; [done|].
  split; [|split].
  - intros p Hp. rewrite Hf. by apply mark_files_lookup_ne.
  - intros c Hc. rewrite Hf. by apply mark_files_lookup_Some.
  - destruct (_write_fail_marker_run env movie_id w') as (w2 & E2 & Hf2 & Hl2 & Hs2).
    rewrite E2. f_equal. apply world_eq; try done.
    by rewrite Hf2, Hf, mark_files_idemp.
Qed.

(** ** What a call of [fetch_poster] can and cannot do *)

Lemma mark_files_subseteq env movie_id (f : gmap string string) :
  f ⊆ mark_files env movie_id f.
Proof.
  destruct (mark_files_cases env movie_id f) as [->|[Hn ->]]; [done|].
  by apply insert_subseteq.
Qed.

Lemma fetch_poster_keeps_files_gen env movie_id timeout retries w res w' :
  fetch_poster env movie_id timeout retries w = (res, w') →
  files w ⊆ files w' ∧ http_log w `prefix_of` http_log w'.
Proof.
  intros Hrun. apply fetch_poster_effect in Hrun as ([ex Hl] & Hc).
  split; [|by exists ex].
  destruct Hc as [[-> _]|[(_ & -> & _)|(_ & _ & Hn & _ & d & ->)]].
  - done.
  - apply mark_files_subseteq.
  - by apply insert_subseteq.
Qed.

(** A call never deletes a file and never changes the content of a file
    that exists, and the log of requests is only appended to. *)
Theorem fetch_poster_keeps_files env movie_id timeout retries w res w' :
  fetch_poster env movie_id timeout retries w = (res, w') →
  files w ⊆ files w' ∧ http_log w `prefix_of` http_log w'.
Proof. apply fetch_poster_keeps_files_gen. Qed.

Lemma fetch_poster_keeps_files_witness :
  files Demo.w0 ⊆
    files (fetch_poster Demo.env (PyInt 1) default_timeout default_retries Demo.w0).2 ∧
  http_log Demo.w0 `prefix_of`
    http_log (fetch_poster Demo.env (PyInt 1) default_timeout default_retries Demo.w0).2.
Proof.
  apply (fetch_poster_keeps_files Demo.env (PyInt 1) default_timeout
           default_retries Demo.w0
           (fetch_poster Demo.env (PyInt 1) default_timeout default_retries Demo.w0).1).
  apply surjective_pairing.
Defined.

Lemma fetch_poster_raises_only_gen env movie_id timeout retries w :
  (∀ e w', fetch_poster env movie_id timeout retries w = (Raise e, w') →
     (e = OSError ∧ writable env (_poster_path env movie_id) = false ∧
      (files w' = files w ∨
       ∃ part, files w' = <[_poster_path env movie_id := part]> (files w))) ∨
     (e = AttributeError ∧ files w' = files w ∧
      unreadable_answer env (TMDB_MOVIE_URL movie_id (TMDB_API_KEY env)) timeout)) ∧
  (writable env (_poster_path env movie_id) = true →
   readable_provider env (TMDB_MOVIE_URL movie_id (TMDB_API_KEY env)) timeout →
   ∃ r w', fetch_poster env movie_id timeout retries w = (Ok r, w')).
Proof.
  split.
  - intros e w' Hrun. apply fetch_poster_effect in Hrun as (_ & Hc).
    destruct Hc as [[Hf [?|[[? _]|[[[= ->] Hu]|[[= ->] Hw]]]]]
                   |[(? & _)|([[? _]|[[= ->] Hw]] & _ & _ & _ & part & Hf)]];
      try done.
    + by right.
    + left. split; [done|]. split; [done|]. by left.
    + left. split; [done|]. split; [done|]. right. by exists part.
  - intros Hw Hrd.
    destruct (fetch_poster env movie_id timeout retries w) as [[r|e] w'] eqn:Hrun;
      [by eexists _, _|].
    apply fetch_poster_effect in Hrun as (_ & Hc).
    destruct Hc as [[Hf [?|[[? _]|[[_ Hu]|[_ Hw']]]]]
                   |[(? & _)|([[? _]|[_ Hw']] & _)]];
      try done; try congruence.
    destruct Hu as (log & r & Hp & Hbad). destruct Hbad. by eapply Hrd.
Qed.

(** Two exceptions can leave [fetch_poster], and no other: the [OSError] of
    a poster write the disk does not take, which leaves the disk as it was
    or leaves a poster file behind that holds only part of the image; and
    the [AttributeError] of an answer whose body the code cannot read,
    which leaves the disk as it was.  Where the disk takes the poster file
    and the provider only sends bodies the code can read, the call returns,
    whatever else the provider does. *)
Theorem fetch_poster_raises_only env movie_id timeout retries w :
  (∀ e w', fetch_poster env movie_id timeout retries w = (Raise e, w') →
     (e = OSError ∧ writable env (_poster_path env movie_id) = false ∧
      (files w' = files w ∨
       ∃ part, files w' = <[_poster_path env movie_id := part]> (files w))) ∨
     (e = AttributeError ∧ files w' = files w ∧
      unreadable_answer env (TMDB_MOVIE_URL movie_id (TMDB_API_KEY env)) timeout)) ∧
  (writable env (_poster_path env movie_id) = true →
   readable_provider env (TMDB_MOVIE_URL movie_id (TMDB_API_KEY env)) timeout →
   ∃ r w', fetch_poster env movie_id timeout retries w = (Ok r, w')).
Proof. apply fetch_poster_raises_only_gen. Qed.

Lemma fetch_poster_result_exists_gen env movie_id timeout retries w p w' :
  fetch_poster env movie_id timeout retries w = (Ok (Some p), w') →
  p = _poster_path env movie_id ∧ is_Some (files w' !! p) ∧ valid_id movie_id.
Proof.
  intros Hrun. pose proof Hrun as Hrun'.
  apply fetch_poster_effect in Hrun as (_ & Hc).
  destruct Hc as [[Hf [?|[[[= ->] Hs]|[[? _]|[? _]]]]]
                 |[(? & _)|([[[= ->] _]|[? _]] & Hv & _ & _ & d & Hf)]];
    try done.
  - split; [done|]. split; [by rewrite Hf|].
    destruct (py_truthy (TMDB_API_KEY env)) eqn:Hk;
      [|by rewrite fetch_poster_no_key in Hrun'].
    destruct (valid_id_cases movie_id) as [Hv|Hv]; [done|].
    by destruct (fetch_poster_invalid env movie_id timeout retries w Hk Hv)
      as (? & _ & E); rewrite E in Hrun'.
  - split; [done|]. split; [|done]. by rewrite Hf, lookup_insert_eq.
Qed.

(** A path that [fetch_poster] returns is the poster path of the
    identifier, and the file is there when the call returns. *)
Theorem fetch_poster_result_exists env movie_id timeout retries w p w' :
  fetch_poster env movie_id timeout retries w = (Ok (Some p), w') →
  p = _poster_path env movie_id ∧ is_Some (files w' !! p) ∧ valid_id movie_id.
Proof. apply fetch_poster_result_exists_gen. Qed.

Lemma fetch_poster_result_exists_witness :
  "/app/poster_cache/1.jpg" = _poster_path Demo.env (PyInt 1) ∧
  is_Some
    (files (fetch_poster Demo.env (PyInt 1) default_timeout default_retries
              Demo.w0).2 !! "/app/poster_cache/1.jpg") ∧
  valid_id (PyInt 1).
Proof.
  apply (fetch_poster_result_exists Demo.env (PyInt 1) default_timeout
           default_retries Demo.w0).
  vm_compute. reflexivity.
Defined.

(** ** Permanent and transient answers *)

(** An authoritative "no" is never retried: for a valid identifier with
    nothing on disk, when the provider answers 404 to the metadata request,
    or names no locator, or answers 404 to the image request, the call
    returns nothing after that one answer (one or two requests, no sleep),
    whatever [retries] allows, and its only effect on the disk is the
    marker, which is there afterwards if the disk accepts it. *)
Theorem fetch_poster_authoritative_no env movie_id timeout retries w n :
  py_truthy (TMDB_API_KEY env) = true →
  valid_id movie_id →
  record env w movie_id = Absent →
  (1 ≤ retries)%Z →
  says_no env movie_id timeout (http_log w) n →
  ∃ w', fetch_poster env movie_id timeout retries w = (Ok None, w') ∧
        length (http_log w') = length (http_log w) + n ∧
        slept w' = slept w ∧
        files w' = mark_files env movie_id (files w) ∧
        (writable env (_fail_marker_path env movie_id) = true →
         record env w' movie_id = PermanentlyUnavailable).
Proof.
  intros Hk Hv Ha Hr Hno. pose proof Ha as [Hc Hm]%record_Absent.
  rewrite fetch_poster_absent by done.
  destruct (py_range_succ retries Hr) as [rest ->]. simpl.
  assert (∀ w1 : World, files w1 = files w →
            writable env (_fail_marker_path env movie_id) = true →
            files w1 = files w →
            ∀ w2, files w2 = mark_files env movie_id (files w1) →
                  record env w2 movie_id = PermanentlyUnavailable) as Hrec.
  { intros w1 _ Hw Hf1 w2 Hf2. unfold record.
    rewrite Hf2, Hf1, mark_files_lookup_ne, Hc by apply poster_path_not_marker.
    by destruct (mark_files_lookup_marker env movie_id (files w) Hw) as [c ->]. }
  unfold try_except, fetch_attempt, requests_get, raise_for_status, resp_json.
  unfold_monad.
  destruct Hno as [meta H1 S1|meta p H1 S1 J1 Hp|meta p img H1 S1 J1 Hp H2 S2].
  - rewrite H1, S1, Z.eqb_refl. cbv beta iota zeta.
    match goal with |- context [_write_fail_marker env movie_id ?w1] =>
      pose proof (_write_fail_marker_run env movie_id w1) as Hrun
    end.
    destruct Hrun as (w' & E & Hf & Hl & Hs). rewrite E.
    exists w'. simpl in *. rewrite Hl, length_app. repeat split; try done.
    intros Hw. by eapply Hrec.
  - apply status_ok_flags in S1 as [E1 F1]. rewrite H1, E1, F1, J1.
    assert (∃ w', _write_fail_marker env movie_id
              {| files := files w;
                 http_log := http_log w ++
                   [{| req_url := TMDB_MOVIE_URL movie_id (TMDB_API_KEY env);
                       req_timeout := timeout |}];
                 slept := slept w |} = (Ok (), w') ∧
              files w' = mark_files env movie_id (files w) ∧
              http_log w' = http_log w ++
                   [{| req_url := TMDB_MOVIE_URL movie_id (TMDB_API_KEY env);
                       req_timeout := timeout |}] ∧
              slept w' = slept w) as (w' & E & Hf & Hl & Hs)
      by apply _write_fail_marker_run.
    exists w'. simpl in *.
    split; [by destruct Hp as [-> | ->]; read_body; rewrite E|].
    rewrite Hl, length_app. repeat split; try done.
    intros Hw. by eapply Hrec.
  - apply status_ok_flags in S1 as [E1 F1]. rewrite H1, E1, F1, J1.
    destruct p as [|c p]; [done|]. read_body.
    rewrite H2, S2, Z.eqb_refl. cbv beta iota zeta.
    match goal with |- context [_write_fail_marker env movie_id ?w1] =>
      pose proof (_write_fail_marker_run env movie_id w1) as Hrun
    end.
    destruct Hrun as (w' & E & Hf & Hl & Hs). rewrite E.
    exists w'. simpl in *. rewrite Hl, !length_app. simpl.
    repeat split; try done; [lia|].
    intros Hw. by eapply Hrec.
Qed.

Lemma fetch_poster_authoritative_no_witness :
  ∃ w', fetch_poster Demo.env (PyInt 2) default_timeout default_retries Demo.w0
          = (Ok None, w') ∧
        length (http_log w') = length (http_log Demo.w0) + 1 ∧
        slept w' = slept Demo.w0 ∧
        files w' = mark_files Demo.env (PyInt 2) (files Demo.w0) ∧
        (writable Demo.env (_fail_marker_path Demo.env (PyInt 2)) = true →
         record Demo.env w' (PyInt 2) = PermanentlyUnavailable).
Proof.
  apply (fetch_poster_authoritative_no Demo.env (PyInt 2) default_timeout
           default_retries Demo.w0 1).
  - reflexivity.
  - exists 2%Z. split; [reflexivity|lia].
  - reflexivity.
  - unfold default_retries. lia.
  - eapply (no_locator _ _ _ _ _ None).
    + reflexivity.
    + simpl. lia.
    + reflexivity.
    + by left.
Defined.




(** ** Bounded effort *)

Lemma fetch_loop_bounded env movie_id timeout retries url cache_path :
  ∀ n k w res w', (Z.of_nat (k + n) = Z.max 0 retries)%Z →
    fetch_loop env movie_id timeout retries url cache_path
      (map Z.of_nat (seq k n)) w = (res, w') →
    (∃ extra, http_log w' = http_log w ++ extra ∧ length extra ≤ 2 * n) ∧
    slept w ≤ slept w' ≤ slept w + (n - 1).
Proof.
  induction n as [|n IH]; intros k w res w' Hk; simpl.
  { unfold_monad. intros [= <- <-]. split; [|lia].
    exists []. by rewrite app_nil_r. }
  unfold try_except at 1.
  destruct (fetch_attempt env movie_id timeout url cache_path w) as [r1 w1] eqn:E1.
  apply fetch_attempt_effect in E1 as (Hs & (ex & Hl & _ & Hlen) & _).
  assert ((∃ extra, http_log w1 = http_log w ++ extra ∧ length extra ≤ 2 * S n) ∧
          slept w ≤ slept w1 ≤ slept w + (S n - 1)) as Hstop.
  { split; [exists ex; split; [done|lia]|lia]. }
  destruct r1 as [a|e]; [by intros [= <- <-]|].
  destruct (is_RequestException e); [|by intros [= <- <-]].
  destruct (Z.ltb_spec (Z.of_nat k) (retries - 1)) as [Hlt|Hge];
    [|unfold_monad; by intros [= <- <-]].
  unfold_monad. unfold time_sleep. intros Hrun.
  apply (IH (S k)) in Hrun as ((ex' & Hl' & Hlen') & Hs'); [|lia].
  simpl in *. split.
  - exists (ex ++ ex'). rewrite Hl', Hl, app_assoc, length_app. split; [done|lia].
  - lia.
Qed.

Lemma fetch_poster_bounded_gen env movie_id timeout retries w res w' :
  fetch_poster env movie_id timeout retries w = (res, w') →
  (∃ extra, http_log w' = http_log w ++ extra ∧
            length extra ≤ 2 * Z.to_nat retries) ∧
  slept w ≤ slept w' ≤ slept w + (Z.to_nat retries - 1).
Proof.
  assert ((∃ extra, http_log w = http_log w ++ extra ∧
                    length extra ≤ 2 * Z.to_nat retries) ∧
          slept w ≤ slept w ≤ slept w + (Z.to_nat retries - 1)) as Hsame.
  { split; [|lia]. exists []. rewrite app_nil_r. split; [done|simpl; lia]. }
  destruct (py_truthy (TMDB_API_KEY env)) eqn:Hk.
  2:{ rewrite fetch_poster_no_key by done. by intros [= <- <-]. }
  destruct (valid_id_cases movie_id) as [Hv|Hv].
  2:{ destruct (fetch_poster_invalid env movie_id timeout retries w Hk Hv)
        as (wm & Em & ->).
      destruct (_write_fail_marker_run env movie_id w) as (? & E & _ & Hl & Hs).
      rewrite Em in E. injection E as <-. intros [= <- <-]. by rewrite Hl, Hs. }
  destruct (files w !! _poster_path env movie_id) as [b|] eqn:Hc.
  { rewrite fetch_poster_cached by (done || (by rewrite Hc)). by intros [= <- <-]. }
  destruct (files w !! _fail_marker_path env movie_id) as [b|] eqn:Hm.
  { rewrite fetch_poster_marked by (done || (by rewrite Hm)). by intros [= <- <-]. }
  rewrite fetch_poster_absent by done. unfold py_range.
  apply fetch_loop_bounded. lia.
Qed.

(** Whatever the provider does, one call makes at most two requests per
    allowed attempt and sleeps at most [retries - 1] seconds; with
    [retries ≤ 0] it makes no request at all. *)
Theorem fetch_poster_bounded env movie_id timeout retries w res w' :
  fetch_poster env movie_id timeout retries w = (res, w') →
  (∃ extra, http_log w' = http_log w ++ extra ∧
            length extra ≤ 2 * Z.to_nat retries) ∧
  slept w ≤ slept w' ≤ slept w + (Z.to_nat retries - 1).
Proof. apply fetch_poster_bounded_gen. Qed.

Lemma fetch_poster_bounded_witness :
  (∃ extra,
     http_log (fetch_poster Demo.env_flaky (PyInt 1) default_timeout
                 default_retries Demo.w0).2
     = http_log Demo.w0 ++ extra ∧
     length extra ≤ 2 * Z.to_nat default_retries) ∧
  slept Demo.w0
  ≤ slept (fetch_poster Demo.env_flaky (PyInt 1) default_timeout
             default_retries Demo.w0).2
  ≤ slept Demo.w0 + (Z.to_nat default_retries - 1).
Proof.
  apply (fetch_poster_bounded Demo.env_flaky (PyInt 1) default_timeout
           default_retries Demo.w0
           (fetch_poster Demo.env_flaky (PyInt 1) default_timeout
              default_retries Demo.w0).1).
  apply surjective_pairing.
Defined.

(** ** The loop of [recommend], one candidate at a time *)

Lemma recommend_loop_cons env movies idx (s : Q) rest acc w :
  recommend_loop env movies ((idx, s) :: rest) acc w
  = if decide (idx < n_rows movies) then
      match default PyNone (movie_id_at movies idx) with
      | PyNone =>
          recommend_loop env movies rest (acc ++ [(title_at movies idx, None)]) w
      | PyInt z =>
          match fetch_poster env (PyInt z) default_timeout default_retries w with
          | (Ok p, w1) =>
              recommend_loop env movies rest (acc ++ [(title_at movies idx, p)]) w1
          | (Raise e, w1) => (Raise e, w1)
          end
      end
    else (Raise IndexError, w).
Proof.
  simpl. unfold iloc. unfold_monad.
  destruct (decide (idx < n_rows movies)); [|done]. simpl.
  destruct (default PyNone (movie_id_at movies idx)) as [|z]; [done|].
  by destruct (fetch_poster _ _ _ _ w) as [[p|e] w1].
Qed.

(** What the whole loop does to the world, and how it can end. *)
Lemma recommend_loop_effect env movies cands :
  ∀ acc w res w',
    recommend_loop env movies cands acc w = (res, w') →
    files w ⊆ files w' ∧
    (∃ extra, http_log w' = http_log w ++ extra ∧
              length extra ≤ 6 * length cands) ∧
    slept w ≤ slept w' ≤ slept w + 2 * length cands ∧
    match res with
    | Ok recs =>
        length recs = length acc + length cands ∧
        ((∀ r p, r ∈ acc → r.2 = Some p → is_Some (files w !! p)) →
         ∀ r p, r ∈ recs → r.2 = Some p → is_Some (files w' !! p))
    | Raise e =>
        (e = IndexError ∧ Exists (λ c, n_rows movies ≤ c.1) cands) ∨
        (e = OSError ∧ ∃ c z, c ∈ cands ∧
           writable env (_poster_path env (PyInt z)) = false) ∨
        (e = AttributeError ∧ ∃ z,
           unreadable_answer env (TMDB_MOVIE_URL (PyInt z) (TMDB_API_KEY env))
             default_timeout)
    end.
Proof.
  induction cands as [|[idx s] rest IH]; intros acc w res w'.
  { simpl. unfold_monad. intros [= <- <-]. split; [done|].
    split; [exists []; by rewrite app_nil_r|]. split; [lia|].
    split; [simpl; lia|done]. }
  rewrite recommend_loop_cons.
  destruct (decide (idx < n_rows movies)) as [Hi|Hi].
  2:{ intros [= <- <-]. split; [done|].
      split; [exists []; rewrite app_nil_r; split; [done|simpl; lia]|].
      split; [lia|]. left. split; [done|]. constructor. simpl. lia. }
  assert (∀ w1 p,
    files w ⊆ files w1 →
    (∃ ex, http_log w1 = http_log w ++ ex ∧ length ex ≤ 6) →
    slept w ≤ slept w1 ≤ slept w + 2 →
    (∀ q, p = Some q → is_Some (files w1 !! q)) →
    recommend_loop env movies rest (acc ++ [(title_at movies idx, p)]) w1
      = (res, w') →
    files w ⊆ files w' ∧
    (∃ extra, http_log w' = http_log w ++ extra ∧
              length extra ≤ 6 * length ((idx, s) :: rest)) ∧
    slept w ≤ slept w' ≤ slept w + 2 * length ((idx, s) :: rest) ∧
    match res with
    | Ok recs =>
        length recs = length acc + length ((idx, s) :: rest) ∧
        ((∀ r p, r ∈ acc → r.2 = Some p → is_Some (files w !! p)) →
         ∀ r p, r ∈ recs → r.2 = Some p → is_Some (files w' !! p))
    | Raise e =>
        (e = IndexError ∧ Exists (λ c, n_rows movies ≤ c.1) ((idx, s) :: rest)) ∨
        (e = OSError ∧ ∃ c z, c ∈ (idx, s) :: rest ∧
           writable env (_poster_path env (PyInt z)) = false) ∨
        (e = AttributeError ∧ ∃ z,
           unreadable_answer env (TMDB_MOVIE_URL (PyInt z) (TMDB_API_KEY env))
             default_timeout)
    end) as Hnext.
  { intros w1 p Hsub (ex & Hl & Hlen) Hs Hp Hrun.
    apply IH in Hrun as (Hsub' & (ex' & Hl' & Hlen') & Hs' & Hres).
    split; [by etrans|].
    split; [exists (ex ++ ex'); rewrite Hl', Hl, app_assoc, length_app;
            split; [done|simpl; lia]|].
    split; [simpl; lia|].
    destruct res as [recs|e].
    - destruct Hres as [Hlen2 Hex]. rewrite length_app in Hlen2. simpl in *.
      split; [lia|]. intros Hacc. apply Hex.
      intros r q [Hr|Hr]%elem_of_app Hq.
      + eapply lookup_weaken_is_Some; [by eapply Hacc|done].
      + apply list_elem_of_singleton in Hr as ->. by apply Hp.
    - destruct Hres as [[-> Hex]|[(-> & c & z & Hc & Hw)|Hattr]].
      + left. split; [done|]. by apply Exists_cons_tl.
      + right; left. split; [done|]. exists c, z. split; [by right|done].
      + by right; right. }
  destruct (default PyNone (movie_id_at movies idx)) as [|z].
  { apply Hnext; [done|exists []; rewrite app_nil_r; split; [done|simpl; lia]
                  |lia|done]. }
  destruct (fetch_poster env (PyInt z) default_timeout default_retries w)
    as [[p|e] w1] eqn:Hf.
  - pose proof (fetch_poster_keeps_files_gen _ _ _ _ _ _ _ Hf) as [Hsub _].
    pose proof (fetch_poster_bounded_gen _ _ _ _ _ _ _ Hf) as [Hlog Hs].
    apply Hnext; [done|done|unfold default_retries in Hs; lia|].
    intros q ->. by apply fetch_poster_result_exists_gen in Hf as (_ & ? & _).
  - intros [= <- <-].
    pose proof (fetch_poster_keeps_files_gen _ _ _ _ _ _ _ Hf) as [Hsub _].
    pose proof (fetch_poster_bounded_gen _ _ _ _ _ _ _ Hf) as [(ex & Hl & Hlen) Hs].
    destruct (fetch_poster_raises_only_gen env (PyInt z) default_timeout
                default_retries w) as [Hex _].
    split; [done|].
    split; [exists ex; split; [done|unfold default_retries in Hlen; simpl in *; lia]|].
    split; [unfold default_retries in Hs; simpl; lia|].
    destruct (Hex _ _ Hf) as [(-> & Hw & _)|(-> & _ & Hu)].
    + right; left. split; [done|]. exists (idx, s), z. split; [by left|done].
    + right; right. split; [done|]. by exists z.
Qed.

(** ** Further properties of [recommend] *)

(** An unknown title, or a catalog without a title column, gives the empty
    list with or without a credential: nothing is fetched, nothing is
    written, nothing is raised. *)
Theorem recommend_unknown_title env movies similarity title top_n w :
  unknown_title movies title →
  recommend env movies similarity title top_n w = (Ok [], w).
Proof. apply recommend_unknown. Qed.

Lemma recommend_unknown_title_witness :
  recommend Demo.env Demo.movies Demo.similarity "Delta" 5 Demo.w0
  = (Ok [], Demo.w0).
Proof.
  apply (recommend_unknown_title Demo.env Demo.movies Demo.similarity "Delta" 5
           Demo.w0).
  reflexivity.
Defined.

Lemma matches_from_nil (titles : list string) title k :
  filter (λ p, p.2 = title) (enumerate_from k titles) = [] → title ∉ titles.
Proof.
  revert k. induction titles as [|t titles IH]; intros k; simpl.
  { intros _. apply not_elem_of_nil. }
  rewrite filter_cons. simpl. destruct (decide (t = title)) as [->|Hne]; [done|].
  intros H%IH. apply not_elem_of_cons. by split.
Qed.

Lemma matches_from_first (titles : list string) title k i :
  titles !! i = Some title →
  (∀ j, j < i → titles !! j ≠ Some title) →
  head (filter (λ p, p.2 = title) (enumerate_from k titles)).*1 = Some (k + i).
Proof.
  revert k i. induction titles as [|t titles IH]; intros k i Hi Hfirst; [done|].
  simpl. rewrite filter_cons. simpl.
  destruct i as [|i]; simpl in Hi.
  - injection Hi as ->. rewrite decide_True by done. simpl. f_equal. lia.
  - rewrite decide_False; [|intros ->; by apply (Hfirst 0); [lia|]].
    rewrite (IH (S k) i); [f_equal; lia|done|].
    intros j Hj. apply (Hfirst (S j)). lia.
Qed.

(** The query is resolved through the first row that carries the title,
    and through the index label of that row: with duplicate titles the
    later rows play no part.  The similarity row that is ranked is the one
    the lookup of that label gives, and when the lookup fails the call
    returns the empty list.  Where the label of the row is its position, as
    under the default index, the lookup is that of the position. *)
Theorem recommend_resolves_first_match env movies similarity titles title
    top_n w i :
  title_col movies = Some titles →
  titles !! i = Some title →
  (∀ j, j < i → titles !! j ≠ Some title) →
  recommend env movies similarity title top_n w
  = match py_getitem similarity (index movies i) with
    | Ok distances =>
        recommend_loop env movies (candidates distances top_n) [] w
    | Raise _ => (Ok [], w)
    end ∧
  (index movies i = RangeIndex i →
   py_getitem similarity (index movies i)
   = match similarity !! i with
     | Some distances => Ok distances
     | None => Raise IndexError
     end).
Proof.
  intros Ht Hi Hfirst.
  pose proof (matches_from_first titles title 0 i Hi Hfirst) as Hh.
  split; [|by intros ->; apply py_getitem_RangeIndex].
  destruct (py_getitem similarity (index movies i)) as [distances|e] eqn:Hs.
  - apply (recommend_resolved _ _ _ _ _ _ i). by exists titles.
  - apply (recommend_out_of_bounds _ _ _ _ _ _ i). exists titles.
    repeat split; try done. by exists e.
Qed.

Lemma recommend_resolves_first_match_witness :
  recommend Demo.env_no_key Demo.relabelled Demo.similarity "Alpha" 5 Demo.w0
  = match py_getitem Demo.similarity (index Demo.relabelled 0) with
    | Ok distances =>
        recommend_loop Demo.env_no_key Demo.relabelled (candidates distances 5) []
          Demo.w0
    | Raise _ => (Ok [], Demo.w0)
    end ∧
  (index Demo.relabelled 0 = RangeIndex 0 →
   py_getitem Demo.similarity (index Demo.relabelled 0)
   = match Demo.similarity !! 0 with
     | Some distances => Ok distances
     | None => Raise IndexError
     end).
Proof.
  apply (recommend_resolves_first_match Demo.env_no_key Demo.relabelled
           Demo.similarity ["Alpha"; "Beta"; "Gamma"] "Alpha" 5 Demo.w0 0).
  - reflexivity.
  - reflexivity.
  - intros j Hj. lia.
Defined.

Lemma enumerate_from_fst {A} (l : list A) k :
  (enumerate_from k l).*1 = seq k (length l).
Proof. revert k. induction l as [|x l IH]; intros k; simpl; [done|]. by rewrite IH. Qed.

(** No column is a candidate twice, and every candidate is a column of the
    query's row: a catalog row is recommended at most once per call. *)
Theorem candidates_distinct (distances : list Q) top_n :
  NoDup (candidates distances top_n).*1 ∧
  Forall (λ c, c.1 < length distances) (candidates distances top_n).
Proof.
  split.
  - unfold candidates, py_slice. cbv zeta.
    apply (sublist_NoDup _ (py_sorted_desc snd (py_enumerate distances)).*1).
    + rewrite py_sorted_desc_perm. unfold py_enumerate.
      rewrite enumerate_from_fst. apply NoDup_seq.
    + apply fmap_sublist. etrans; [apply sublist_take|apply sublist_drop].
  - apply Forall_forall. intros [i s] Hc%candidates_elem.
    by apply lookup_lt_Some in Hc.
Qed.

(** The effort of one call: for [top_n ≥ 0] it makes at most [6 * top_n]
    requests and sleeps at most [2 * top_n] seconds, and it never deletes
    or alters a file that exists. *)
Theorem recommend_bounded env movies similarity title top_n w res w' :
  (0 ≤ top_n)%Z →
  recommend env movies similarity title top_n w = (res, w') →
  files w ⊆ files w' ∧
  (∃ extra, http_log w' = http_log w ++ extra ∧
            length extra ≤ 6 * Z.to_nat top_n) ∧
  slept w ≤ slept w' ≤ slept w + 2 * Z.to_nat top_n.
Proof.
  intros Hn.
  assert (files w ⊆ files w ∧
          (∃ extra, http_log w = http_log w ++ extra ∧
                    length extra ≤ 6 * Z.to_nat top_n) ∧
          slept w ≤ slept w ≤ slept w + 2 * Z.to_nat top_n) as Hsame.
  { split; [done|]. split; [|lia]. exists []. rewrite app_nil_r.
    split; [done|simpl; lia]. }
  destruct (title_cases movies similarity title)
    as [Hu|[[i Ho]|(i & distances & Hr)]].
  - rewrite recommend_unknown by done. by intros [= <- <-].
  - rewrite (recommend_out_of_bounds _ _ _ _ _ _ i) by done. by intros [= <- <-].
  - rewrite (recommend_resolved _ _ _ _ _ _ i distances) by done.
    intros (Hsub & (ex & Hl & Hlen) & Hs & _)%recommend_loop_effect.
    pose proof (candidates_length distances top_n ltac:(lia)) as Hc.
    split; [done|]. split; [exists ex; split; [done|lia]|lia].
Qed.

Lemma recommend_bounded_witness :
  files Demo.w0 ⊆
    files (recommend Demo.env Demo.movies Demo.similarity "Gamma" 5 Demo.w0).2 ∧
  (∃ extra,
     http_log (recommend Demo.env Demo.movies Demo.similarity "Gamma" 5 Demo.w0).2
     = http_log Demo.w0 ++ extra ∧
     length extra ≤ 6 * Z.to_nat 5) ∧
  slept Demo.w0
  ≤ slept (recommend Demo.env Demo.movies Demo.similarity "Gamma" 5 Demo.w0).2
  ≤ slept Demo.w0 + 2 * Z.to_nat 5.
Proof.
  apply (recommend_bounded Demo.env Demo.movies Demo.similarity "Gamma" 5 Demo.w0
           (recommend Demo.env Demo.movies Demo.similarity "Gamma" 5 Demo.w0).1).
  - lia.
  - apply surjective_pairing.
Defined.

(** Every poster path in a returned list names a file that is on disk when
    the call returns, so the page finds each poster it is given. *)
Theorem recommend_posters_exist env movies similarity title top_n w recs w' :
  recommend env movies similarity title top_n w = (Ok recs, w') →
  ∀ r p, r ∈ recs → r.2 = Some p → is_Some (files w' !! p).
Proof.
  destruct (title_cases movies similarity title)
    as [Hu|[[i Ho]|(i & distances & Hr)]].
  - rewrite recommend_unknown by done. intros [= <- <-] r p Hr.
    by apply not_elem_of_nil in Hr.
  - rewrite (recommend_out_of_bounds _ _ _ _ _ _ i) by done.
    intros [= <- <-] r p Hr. by apply not_elem_of_nil in Hr.
  - rewrite (recommend_resolved _ _ _ _ _ _ i distances) by done.
    intros (_ & _ & _ & _ & Hex)%recommend_loop_effect. apply Hex.
    intros r p Hin. by apply not_elem_of_nil in Hin.
Qed.

Lemma recommend_posters_exist_witness :
  is_Some
    (files (recommend Demo.env Demo.movies Demo.similarity "Gamma" 5 Demo.w0).2
       !! "/app/poster_cache/1.jpg").
Proof.
  refine (recommend_posters_exist Demo.env Demo.movies Demo.similarity "Gamma" 5
            Demo.w0
            [(Some "Alpha", Some "/app/poster_cache/1.jpg"); (Some "Beta", None)]
            (recommend Demo.env Demo.movies Demo.similarity "Gamma" 5 Demo.w0).2
            _ (Some "Alpha", Some "/app/poster_cache/1.jpg")
            "/app/poster_cache/1.jpg" _ _).
  - vm_compute. reflexivity.
  - apply list_elem_of_In. simpl. tauto.
  - reflexivity.
Defined.

Lemma recommend_raises_only_gen env movies similarity title top_n w e w' :
  recommend env movies similarity title top_n w = (Raise e, w') →
  (e = IndexError ∧
   ∃ i distances c, resolves movies similarity title i distances ∧
                    c ∈ candidates distances top_n ∧ n_rows movies ≤ c.1) ∨
  (e = OSError ∧ ∃ z, writable env (_poster_path env (PyInt z)) = false) ∨
  (e = AttributeError ∧ ∃ z,
     unreadable_answer env (TMDB_MOVIE_URL (PyInt z) (TMDB_API_KEY env))
       default_timeout).
Proof.
  destruct (title_cases movies similarity title)
    as [Hu|[[i Ho]|(i & distances & Hr)]].
  - by rewrite recommend_unknown.
  - by rewrite (recommend_out_of_bounds _ _ _ _ _ _ i).
  - rewrite (recommend_resolved _ _ _ _ _ _ i distances) by done.
    intros (_ & _ & _ & [[-> Hex]|[(-> & c & z & _ & Hw)|Hattr]])%recommend_loop_effect.
    + left. split; [done|]. apply Exists_exists in Hex as (c & Hc & Hn).
      by exists i, distances, c.
    + right; left. split; [done|]. by exists z.
    + by right; right.
Qed.

(** The exceptions that can leave [recommend]: [IndexError], when a
    candidate column lies beyond the last row of the catalog; [OSError],
    when the disk does not take a poster file; and [AttributeError], when
    the provider answers a metadata request with a body the code cannot
    read.  Nothing else is raised. *)
Theorem recommend_raises_only env movies similarity title top_n w e w' :
  recommend env movies similarity title top_n w = (Raise e, w') →
  (e = IndexError ∧
   ∃ i distances c, resolves movies similarity title i distances ∧
                    c ∈ candidates distances top_n ∧ n_rows movies ≤ c.1) ∨
  (e = OSError ∧ ∃ z, writable env (_poster_path env (PyInt z)) = false) ∨
  (e = AttributeError ∧ ∃ z,
     unreadable_answer env (TMDB_MOVIE_URL (PyInt z) (TMDB_API_KEY env))
       default_timeout).
Proof. apply recommend_raises_only_gen. Qed.

Lemma recommend_raises_only_witness :
  (AttributeError = IndexError ∧
   ∃ i distances c, resolves Demo.movies Demo.similarity "Gamma" i distances ∧
                    c ∈ candidates distances 5 ∧ n_rows Demo.movies ≤ c.1) ∨
  (AttributeError = OSError ∧
   ∃ z, writable Demo.env_array (_poster_path Demo.env_array (PyInt z)) = false) ∨
  (AttributeError = AttributeError ∧ ∃ z,
     unreadable_answer Demo.env_array
       (TMDB_MOVIE_URL (PyInt z) (TMDB_API_KEY Demo.env_array)) default_timeout).
Proof.
  apply (recommend_raises_only Demo.env_array Demo.movies Demo.similarity
           "Gamma" 5 Demo.w0 AttributeError
           (recommend Demo.env_array Demo.movies Demo.similarity "Gamma" 5
              Demo.w0).2).
  vm_compute. reflexivity.
Defined.

Lemma readable_not_unreadable env url timeout :
  readable_provider env url timeout → ¬ unreadable_answer env url timeout.
Proof. intros Hrd (log & r & Hp & Hbad). destruct Hbad. by eapply Hrd. Qed.

(** Where the disk takes every poster file, the provider only sends bodies
    the code can read, and the query's row is no longer than the catalog,
    the call returns whatever else the provider does (failures, error
    statuses, bodies that are not JSON), with one entry per candidate:
    missing posters never make it fail. *)
Theorem recommend_returns env movies similarity title top_n w :
  (∀ z, writable env (_poster_path env (PyInt z)) = true) →
  (∀ z, readable_provider env (TMDB_MOVIE_URL (PyInt z) (TMDB_API_KEY env))
          default_timeout) →
  (∀ i distances, resolves movies similarity title i distances →
                  length distances ≤ n_rows movies) →
  ∃ recs w',
    recommend env movies similarity title top_n w = (Ok recs, w') ∧
    ∀ i distances, resolves movies similarity title i distances →
      Forall2 (built_from movies) recs (candidates distances top_n).
Proof.
  intros Hw Hrd Hb.
  destruct (recommend env movies similarity title top_n w) as [[recs|e] w'] eqn:Hrun.
  - exists recs, w'. split; [done|]. intros i distances Hr.
    by eapply recommend_built.
  - apply recommend_raises_only_gen in Hrun
      as [(_ & i & distances & [j s] & Hr & Hc & Hn)|[(_ & z & Hz)|(_ & z & Hu)]].
    + apply candidates_elem, lookup_lt_Some in Hc.
      specialize (Hb _ _ Hr). simpl in *. lia.
    + by rewrite Hw in Hz.
    + by apply readable_not_unreadable in Hu.
Qed.

Lemma flaky_readable url timeout : readable_provider Demo.env_flaky url timeout.
Proof.
  intros log r. simpl. unfold Demo.flaky, Demo.tmdb, Demo.ok, Demo.not_found.
  repeat case_decide; intros [= <-]; exact I.
Qed.

Lemma recommend_returns_witness :
  ∃ recs w',
    recommend Demo.env_flaky Demo.movies Demo.similarity "Gamma" 5 Demo.w0
      = (Ok recs, w') ∧
    ∀ i distances, resolves Demo.movies Demo.similarity "Gamma" i distances →
      Forall2 (built_from Demo.movies) recs (candidates distances 5).
Proof.
  apply (recommend_returns Demo.env_flaky Demo.movies Demo.similarity "Gamma" 5
           Demo.w0).
  - intros z. reflexivity.
  - intros z. apply flaky_readable.
  - intros i distances (t & Ht & Hh & Hs).
    injection Ht as <-. vm_compute in Hh. injection Hh as <-.
    vm_compute in Hs. injection Hs as <-. simpl. lia.
Defined.

Lemma recommend_loop_index_error env movies cands :
  (∀ z, writable env (_poster_path env (PyInt z)) = true) →
  (∀ z, readable_provider env (TMDB_MOVIE_URL (PyInt z) (TMDB_API_KEY env))
          default_timeout) →
  Exists (λ c, n_rows movies ≤ c.1) cands →
  ∀ acc w, ∃ w', recommend_loop env movies cands acc w = (Raise IndexError, w').
Proof.
  intros Hw Hrd. induction cands as [|[idx s] rest IH]; intros Hex acc w.
  { by apply Exists_nil in Hex. }
  rewrite recommend_loop_cons.
  destruct (decide (idx < n_rows movies)) as [Hi|Hi]; [|by eexists].
  apply Exists_cons in Hex as [Hex|Hex]; [simpl in Hex; lia|].
  destruct (default PyNone (movie_id_at movies idx)) as [|z]; [by apply IH|].
  destruct (fetch_poster_raises_only_gen env (PyInt z) default_timeout
              default_retries w) as [_ Hret].
  destruct (Hret (Hw z) (Hrd z)) as (p & w1 & ->). by apply IH.
Qed.

(** A similarity row that reaches beyond the catalog is not caught: when a
    candidate column has no catalog row (and no poster fetch fails before
    it: the disk takes poster files and the provider sends bodies the code
    can read), [movies.iloc] raises and the [IndexError] leaves
    [recommend]. *)
Theorem recommend_row_beyond_catalog env movies similarity title top_n w
    i distances :
  (∀ z, writable env (_poster_path env (PyInt z)) = true) →
  (∀ z, readable_provider env (TMDB_MOVIE_URL (PyInt z) (TMDB_API_KEY env))
          default_timeout) →
  resolves movies similarity title i distances →
  Exists (λ c, n_rows movies ≤ c.1) (candidates distances top_n) →
  ∃ w', recommend env movies similarity title top_n w = (Raise IndexError, w').
Proof.
  intros Hw Hrd Hr Hex. rewrite (recommend_resolved _ _ _ _ _ _ i distances) by done.
  by apply recommend_loop_index_error.
Qed.

Lemma tmdb_readable url timeout : readable_provider Demo.env url timeout.
Proof.
  intros log r. simpl. unfold Demo.tmdb, Demo.ok, Demo.not_found.
  repeat case_decide; intros [= <-]; exact I.
Qed.

Lemma recommend_row_beyond_catalog_witness :
  ∃ w', recommend Demo.env Demo.small_catalog Demo.similarity "Alpha" 5 Demo.w0
        = (Raise IndexError, w').
Proof.
  apply (recommend_row_beyond_catalog Demo.env Demo.small_catalog Demo.similarity
           "Alpha" 5 Demo.w0 0 [1; 1 # 2; 1 # 2]%Q).
  - intros z. reflexivity.
  - intros z. apply tmdb_readable.
  - exists ["Alpha"; "Beta"]. repeat split; reflexivity.
  - apply Exists_cons_tl, Exists_cons_hd. simpl. lia.
Defined.

Lemma recommend_loop_no_ids env movies cands acc w :
  movie_id_col movies = None →
  Forall (λ c, c.1 < n_rows movies) cands →
  recommend_loop env movies cands acc w
  = (Ok (acc ++ map (λ c, (title_at movies c.1, None)) cands), w).
Proof.
  intros Hcol. revert acc. induction cands as [|[idx s] rest IH]; intros acc HF.
  { simpl. by rewrite app_nil_r. }
  apply Forall_cons in HF as [Hi HF]. simpl in Hi.
  rewrite recommend_loop_cons.
  destruct (decide (idx < n_rows movies)); [|done].
  unfold movie_id_at. rewrite Hcol. simpl.
  rewrite IH by done. by rewrite <- app_assoc.
Qed.

(** Rows without an identifier are never looked up: in a catalog without a
    [movie_id] column the call makes no request and writes nothing, with or
    without a credential, and every entry is a title without a poster. *)
Theorem recommend_without_movie_ids env movies similarity title top_n w
    i distances :
  movie_id_col movies = None →
  resolves movies similarity title i distances →
  length distances ≤ n_rows movies →
  recommend env movies similarity title top_n w
  = (Ok (map (λ c, (title_at movies c.1, None)) (candidates distances top_n)), w).
Proof.
  intros Hcol Hr Hl. rewrite (recommend_resolved _ _ _ _ _ _ i distances) by done.
  by rewrite recommend_loop_no_ids by (done || by apply candidates_in_bounds).
Qed.

Lemma recommend_without_movie_ids_witness :
  recommend Demo.env Demo.titles_only Demo.similarity "Gamma" 5 Demo.w0
  = (Ok (map (λ c, (title_at Demo.titles_only c.1, None))
           (candidates [1 # 2; 1 # 4; 1]%Q 5)), Demo.w0).
Proof.
  apply (recommend_without_movie_ids Demo.env Demo.titles_only Demo.similarity
           "Gamma" 5 Demo.w0 2 [1 # 2; 1 # 4; 1]%Q).
  - reflexivity.
  - exists ["Alpha"; "Beta"; "Gamma"]. repeat split; reflexivity.
  - simpl. lia.
Defined.

(** ** [load_movies]: the identifier column *)

Lemma has_column_column {C} name (cols : list (string * C)) :
  has_column name cols = true ↔ is_Some (column name cols).
Proof.
  unfold has_column. rewrite bool_decide_eq_true.
  induction cols as [|[n c] cols IH].
  - simpl. split; [by intros ?%not_elem_of_nil|by intros [? ?]].
  - rewrite fmap_cons, elem_of_cons. simpl.
    destruct (decide (n = name)) as [->|Hne]; [by split; [eexists|left]|].
    rewrite <- IH. split; [by intros [?|?]|by right].
Qed.

Lemma has_column_false {C} name (cols : list (string * C)) :
  has_column name cols = false ↔ column name cols = None.
Proof.
  rewrite <- not_true_iff_false, has_column_column, <- eq_None_not_Some. done.
Qed.

Lemma rename_column_data {C} old new (cols : list (string * C)) :
  (rename_column old new cols).*2 = cols.*2.
Proof.
  unfold rename_column. induction cols as [|[n c] cols IH]; [done|].
  rewrite !fmap_cons. simpl. by f_equal.
Qed.

Lemma column_rename_new {C} old new (cols : list (string * C)) :
  column new cols = None →
  column new (rename_column old new cols) = column old cols.
Proof.
  unfold rename_column. induction cols as [|[n c] cols IH]; [done|]. simpl.
  destruct (decide (n = new)) as [->|Hn]; [done|]. intros Hnone.
  destruct (decide (n = old)) as [->|Ho].
  - by rewrite decide_True.
  - rewrite decide_False by done. by apply IH.
Qed.

Lemma column_rename_other {C} old new name (cols : list (string * C)) :
  name ≠ old → name ≠ new →
  column name (rename_column old new cols) = column name cols.
Proof.
  intros Ho Hn. unfold rename_column.
  induction cols as [|[n c] cols IH]; [done|]. simpl.
  destruct (decide (n = old)) as [->|Hne].
  - rewrite decide_False by done. by rewrite decide_False by done.
  - destruct (decide (n = name)); [done|]. apply IH.
Qed.

Lemma rename_column_names {C} old new (cols : list (string * C)) :
  new ∉ cols.*1 → NoDup cols.*1 → NoDup (rename_column old new cols).*1.
Proof.
  unfold rename_column. induction cols as [|[n c] cols IH]; [done|].
  rewrite !fmap_cons. simpl. intros Hnew [Hn Hnd]%NoDup_cons.
  apply not_elem_of_cons in Hnew as [Hne Hnew].
  apply NoDup_cons. split; [|by apply IH].
  intros Hin. apply list_elem_of_fmap in Hin as ([n' c'] & Heq & Hin). simpl in Heq.
  apply list_elem_of_fmap in Hin as ([n2 c2] & [= -> ->] & Hin).
  destruct (decide (n = old)) as [->|Hno], (decide (n2 = old)) as [->|Hn2o];
    simpl in *.
  - apply Hn. apply list_elem_of_fmap. by exists (old, c2).
  - subst n2. apply Hnew. apply list_elem_of_fmap. by exists (new, c2).
  - by subst n.
  - subst n2. apply Hn. apply list_elem_of_fmap. by exists (n, c2).
Qed.

Lemma load_movies_movie_id_column_gen {C} (movies_dict : list (string * C)) :
  column "movie_id" (load_movies movies_dict)
  = match column "movie_id" movies_dict with
    | Some c => Some c
    | None =>
        match column "id" movies_dict with
        | Some c => Some c
        | None =>
            match column "movieId" movies_dict with
            | Some c => Some c
            | None => column "tmdb_id" movies_dict
            end
        end
    end.
Proof.
  unfold load_movies.
  destruct (has_column "movie_id" movies_dict) eqn:Hm; simpl.
  { apply has_column_column in Hm as [c Hc]. by rewrite Hc. }
  apply has_column_false in Hm. rewrite Hm.
  destruct (has_column "id" movies_dict) eqn:H1.
  { rewrite column_rename_new by done.
    apply has_column_column in H1 as [c Hc]. by rewrite Hc. }
  apply has_column_false in H1. rewrite H1.
  destruct (has_column "movieId" movies_dict) eqn:H2.
  { rewrite column_rename_new by done.
    apply has_column_column in H2 as [c Hc]. by rewrite Hc. }
  apply has_column_false in H2. rewrite H2.
  destruct (has_column "tmdb_id" movies_dict) eqn:H3.
  { by rewrite column_rename_new. }
  apply has_column_false in H3. by rewrite H3.
Qed.

(** After [load_movies] the identifier column is the first one present
    among [movie_id], [id], [movieId] and [tmdb_id], in that order of
    preference; if none is present there is no identifier column. *)
Theorem load_movies_movie_id_column {C} (movies_dict : list (string * C)) :
  column "movie_id" (load_movies movies_dict)
  = match column "movie_id" movies_dict with
    | Some c => Some c
    | None =>
        match column "id" movies_dict with
        | Some c => Some c
        | None =>
            match column "movieId" movies_dict with
            | Some c => Some c
            | None => column "tmdb_id" movies_dict
            end
        end
    end.
Proof. apply load_movies_movie_id_column_gen. Qed.

Lemma load_movies_cases {C} (movies_dict : list (string * C)) :
  load_movies movies_dict = movies_dict ∨
  ∃ alt, (alt = "id" ∨ alt = "movieId" ∨ alt = "tmdb_id") ∧
         has_column "movie_id" movies_dict = false ∧
         load_movies movies_dict = rename_column alt "movie_id" movies_dict.
Proof.
  unfold load_movies.
  destruct (has_column "movie_id" movies_dict) eqn:Hm; simpl; [by left|].
  destruct (has_column "id" movies_dict);
    [right; exists "id"; by repeat split; [left|..]|].
  destruct (has_column "movieId" movies_dict);
    [right; exists "movieId"; by repeat split; [right; left|..]|].
  destruct (has_column "tmdb_id" movies_dict);
    [right; exists "tmdb_id"; by repeat split; [right; right|..]|].
  by left.
Qed.

(** [load_movies] changes labels only: the columns keep their content and
    their order, unique labels stay unique, and every column whose label is
    not one of [movie_id], [id], [movieId], [tmdb_id] (the titles, the
    tags) is found under its label as before. *)
Theorem load_movies_preserves {C} (movies_dict : list (string * C)) :
  (load_movies movies_dict).*2 = movies_dict.*2 ∧
  (NoDup movies_dict.*1 → NoDup (load_movies movies_dict).*1) ∧
  ∀ name,
    name ≠ "movie_id" → name ≠ "id" → name ≠ "movieId" → name ≠ "tmdb_id" →
    column name (load_movies movies_dict) = column name movies_dict.
Proof.
  destruct (load_movies_cases movies_dict) as [->|(alt & Halt & Hm & ->)];
    [done|].
  split; [apply rename_column_data|]. split.
  - apply rename_column_names. unfold has_column in Hm.
    by apply bool_decide_eq_false in Hm.
  - intros name H0 H1 H2 H3. apply column_rename_other; [|done].
    by destruct Halt as [-> | [-> | ->]].
Qed.

(** Loading what was loaded changes nothing. *)
Theorem load_movies_idempotent {C} (movies_dict : list (string * C)) :
  load_movies (load_movies movies_dict) = load_movies movies_dict.
Proof.
  destruct (has_column "movie_id" (load_movies movies_dict)) eqn:H.
  { unfold load_movies at 1. by rewrite H. }
  apply has_column_false in H. rewrite load_movies_movie_id_column_gen in H.
  destruct (column "movie_id" movies_dict) eqn:H0; [done|].
  destruct (column "id" movies_dict) eqn:H1; [done|].
  destruct (column "movieId" movies_dict) eqn:H2; [done|].
  apply has_column_false in H0, H1, H2, H.
  assert (load_movies movies_dict = movies_dict) as E.
  { unfold load_movies. rewrite H0. simpl. by rewrite H1, H2, H. }
  by rewrite !E.
Qed.

Example load_movies_alt :
  load_movies [("title", ["Alpha"]); ("tmdb_id", ["7"]); ("id", ["1"])]
  = [("title", ["Alpha"]); ("tmdb_id", ["7"]); ("movie_id", ["1"])].
Proof. reflexivity. Qed.

(** ** The sidebar of the page *)

Lemma sidebar_options_cases (titles : list string) query_text :
  sidebar_options titles query_text = titles ∨
  (sidebar_options titles query_text
   = filter (λ t, str_contains (str_lower query_text) (str_lower t) = true) titles
   ∧ sidebar_options titles query_text ≠ []).
Proof.
  unfold sidebar_options. destruct query_text as [|c q]; [by left|].
  destruct (filter _ titles) as [|t l] eqn:E; [by left|by right].
Qed.

Lemma sidebar_options_sound_gen (titles : list string) query_text :
  sidebar_options titles query_text `sublist_of` titles ∧
  (titles ≠ [] → sidebar_options titles query_text ≠ []) ∧
  (sidebar_options titles query_text = titles ∨
   ∀ t, t ∈ sidebar_options titles query_text ↔
        t ∈ titles ∧ str_contains (str_lower query_text) (str_lower t) = true).
Proof.
  destruct (sidebar_options_cases titles query_text) as [->|[-> Hne]].
  - split; [done|]. split; [done|by left].
  - split; [apply sublist_filter|]. split; [done|right].
    intros t. rewrite list_elem_of_filter. tauto.
Qed.

(** The select box never offers anything but catalog titles, in catalog
    order, and is never empty when the catalog has titles; unless it shows
    the whole catalog, it shows exactly the titles that contain the typed
    text, letter case aside. *)
Theorem sidebar_options_sound (titles : list string) query_text :
  sidebar_options titles query_text `sublist_of` titles ∧
  (titles ≠ [] → sidebar_options titles query_text ≠ []) ∧
  (sidebar_options titles query_text = titles ∨
   ∀ t, t ∈ sidebar_options titles query_text ↔
        t ∈ titles ∧ str_contains (str_lower query_text) (str_lower t) = true).
Proof. apply sidebar_options_sound_gen. Qed.

(** Whatever is picked in the select box is a title of the catalog, so the
    call [recommend(query)] that follows never takes the unknown-title
    exit. *)
Theorem sidebar_option_is_known movies query_text t :
  t ∈ sidebar_options (all_titles movies) query_text →
  ¬ unknown_title movies t.
Proof.
  intros Hin Hu.
  destruct (sidebar_options_sound_gen (all_titles movies) query_text) as (Hsub & _).
  eapply elem_of_sublist in Hin; [|done].
  unfold all_titles, unknown_title in *.
  destruct (title_col movies) as [titles|]; simpl in Hin;
    [|by apply not_elem_of_nil in Hin].
  unfold title_matches, title_mask, py_enumerate in Hu.
  do 2 apply fmap_nil_inv in Hu. by apply matches_from_nil in Hu.
Qed.

Lemma sidebar_option_is_known_witness : ¬ unknown_title Demo.movies "Gamma".
Proof.
  apply (sidebar_option_is_known Demo.movies "AM" "Gamma").
  vm_compute. apply list_elem_of_In. simpl. tauto.
Defined.





Example sidebar_filter : sidebar_options ["Alpha"; "Beta"; "Gamma"] "AM" = ["Gamma"].
Proof. reflexivity. Qed.

Example sidebar_fallback :
  sidebar_options ["Alpha"; "Beta"; "Gamma"] "zz" = ["Alpha"; "Beta"; "Gamma"].
Proof. reflexivity. Qed.
